(** * Publisher: the git service, the release command and the validate command

    A shallow embedding of the parts of the monorepo release tool that read
    the commit history, order tags, create commits and tags, and dispatch the
    release and validate commands, with the properties of its specification
    proved (or refuted) on that embedding.

    Conventions.
    - A JavaScript string is a [string]; the primitives of [String.prototype]
      the code uses are defined once in the first part.
    - A promise-returning method is a computation in the monad [M]: it
      threads a state and either returns a value or throws an error, which is
      represented by its message.  State changes made before a throw persist,
      as they do in JavaScript.
    - The [simple-git] client and Node's [path] module are external: they are
      interfaces ([SimpleGit], [NodePath]) and every theorem quantifies over
      their implementations.  Each call made to the client is recorded in
      [calls]; each [info] and [error] line given to the logger is recorded in
      [logs] ([debug] lines are diagnostic only and are not recorded). *)

From Stdlib Require Import String Ascii List ZArith Lia Bool Arith.
From Stdlib Require Import DecimalString.
Import ListNotations.

Local Open Scope string_scope.
Local Open Scope list_scope.

Infix "+++" := String.append (at level 60, right associativity).

(* ================================================================== *)
(** ** JavaScript string primitives *)

Definition nl : string := String (ascii_of_nat 10) EmptyString.

(** [stripPrefix p s] is the rest of [s] after its prefix [p], if [p] is one. *)
Fixpoint stripPrefix (p s : string) : option string :=
  match p with
  | EmptyString => Some s
  | String c p' =>
      match s with
      | EmptyString => None
      | String d s' => if Ascii.eqb c d then stripPrefix p' s' else None
      end
  end.

(** [s.startsWith(p)] *)
Definition startsWith (s p : string) : bool :=
  match stripPrefix p s with Some _ => true | None => false end.

(** [s.includes(p)] *)
Fixpoint includes (s p : string) : bool :=
  if startsWith s p then true
  else match s with
       | EmptyString => false
       | String _ s' => includes s' p
       end.

(** [!!s] for a string: only the empty string is falsy. *)
Definition truthy (s : string) : bool := negb (s =? "").

(** [xs.filter(Boolean)] on an array of strings. *)
Definition filterBoolean (xs : list string) : list string := filter truthy xs.

(** A value that may be [undefined]: truthy when present and non-empty. *)
Definition given (o : option string) : option string :=
  match o with
  | Some s => if truthy s then Some s else None
  | None => None
  end.

(** [s.split(sep)] for a non-empty separator: occurrences are found from the
    left and do not overlap.  [skip] counts the characters of a separator
    occurrence that are still to be passed over. *)
Fixpoint split_from (sep : string) (skip : nat) (s : string) : list string :=
  match s with
  | EmptyString => [EmptyString]
  | String c s' =>
      match skip with
      | S k => split_from sep k s'
      | O =>
          if startsWith s sep
          then EmptyString :: split_from sep (String.length sep - 1) s'
          else match split_from sep 0 s' with
               | h :: t => String c h :: t
               | [] => [String c EmptyString]
               end
      end
  end.

Definition split (s sep : string) : list string := split_from sep 0 s.

(** [xs.join(sep)] *)
Definition join (xs : list string) (sep : string) : string := String.concat sep xs.

(** [xs.pop()] on a fresh array: its last element, [undefined] when empty. *)
Definition pop (xs : list string) : option string :=
  match rev xs with x :: _ => Some x | [] => None end.

(** The first occurrence of [pat] in [s]: the text before it and after it. *)
Fixpoint findFirst (pat s : string) : option (string * string) :=
  match stripPrefix pat s with
  | Some rest => Some (EmptyString, rest)
  | None =>
      match s with
      | EmptyString => None
      | String c s' =>
          match findFirst pat s' with
          | Some (b, a) => Some (String c b, a)
          | None => None
          end
      end
  end.

(** The replacement text of [replace] for a string pattern (the
    GetSubstitution operation without capture groups): [$$] is a dollar,
    [$&] the matched text, [$`] and [$'] the text before and after it; any
    other dollar is literal. *)
Fixpoint getSubstitution (matched before after repl : string) : string :=
  match repl with
  | EmptyString => EmptyString
  | String c r =>
      if Ascii.eqb c "$" then
        match r with
        | EmptyString => String c EmptyString
        | String d r' =>
            if Ascii.eqb d "$" then String "$" (getSubstitution matched before after r')
            else if Ascii.eqb d "&" then matched +++ getSubstitution matched before after r'
            else if Ascii.eqb d "`" then before +++ getSubstitution matched before after r'
            else if Ascii.eqb d "'" then after +++ getSubstitution matched before after r'
            else String c (getSubstitution matched before after r)
        end
      else String c (getSubstitution matched before after r)
  end.

(** [s.replace(pat, repl)] with a string pattern: only the first occurrence
    is replaced. *)
Definition replace (s pat repl : string) : string :=
  match findFirst pat s with
  | None => s
  | Some (b, a) => b +++ getSubstitution pat b a repl +++ a
  end.

(* ================================================================== *)
(** ** JavaScript numbers, as far as version segments need them *)

(** The integer-valued doubles, the infinities and NaN. *)
Inductive jsnum : Type :=
| NaN
| Inf (negative : bool)
| Fin (z : Z).

(** Rounding of an integer to the nearest double, ties to even: integers
    below [2^53] in magnitude are exact, larger ones keep 53 significant
    bits, and what rounds to [2^1024] or more is an infinity. *)
Definition round_double (n : Z) : jsnum :=
  let a := Z.abs n in
  if (a <? 2 ^ 53)%Z then Fin n
  else
    let e := (Z.log2 a - 52)%Z in
    let q := Z.shiftr a e in
    let r := (a - Z.shiftl q e)%Z in
    let half := Z.shiftl 1 (e - 1) in
    let q' := if ((half <? r) || ((r =? half) && Z.odd q))%Z
              then (q + 1)%Z else q in
    let m := Z.shiftl q' e in
    if (2 ^ 1024 <=? m)%Z then Inf (n <? 0)%Z else Fin (Z.sgn n * m)%Z.

Definition isDigit (c : ascii) : bool :=
  let n := nat_of_ascii c in (48 <=? n)%nat && (n <=? 57)%nat.

Fixpoint allDigits (s : string) : bool :=
  match s with
  | EmptyString => true
  | String c s' => isDigit c && allDigits s'
  end.

(** The integer a string of decimal digits denotes. *)
Fixpoint digitsValue_from (acc : Z) (s : string) : Z :=
  match s with
  | EmptyString => acc
  | String c s' => digitsValue_from (10 * acc + (Z.of_nat (nat_of_ascii c) - 48))%Z s'
  end.

Definition digitsValue (s : string) : Z := digitsValue_from 0 s.

(** [Number(s)] on the strings tag versions are made of: the empty string is
    [0], a string of decimal digits is its value rounded to a double.  Every
    other string is not-a-number here; the numeric literals with a sign, an
    exponent, a radix prefix or surrounding white space are outside this
    fragment, and no statement below applies [Number] to them. *)
Definition Number (s : string) : jsnum :=
  if allDigits s then round_double (digitsValue s) else NaN.

(** [x || 0] for [x] a number or [undefined]. *)
Definition orZero (x : option jsnum) : jsnum :=
  match x with
  | Some (Fin z) => Fin z
  | Some (Inf b) => Inf b
  | Some NaN => Fin 0
  | None => Fin 0
  end.

(** [x !== y] on numbers. *)
Definition strictNeq (x y : jsnum) : bool :=
  match x, y with
  | Fin a, Fin b => negb (a =? b)%Z
  | Inf a, Inf b => negb (Bool.eqb a b)
  | _, _ => true
  end.

(** [x - y] *)
Definition jsSub (x y : jsnum) : jsnum :=
  match x, y with
  | NaN, _ | _, NaN => NaN
  | Fin a, Fin b => round_double (a - b)
  | Inf a, Fin _ => Inf a
  | Fin _, Inf b => Inf (negb b)
  | Inf a, Inf b => if Bool.eqb a b then NaN else Inf a
  end.

(** [x > 0] *)
Definition isPositive (x : jsnum) : bool :=
  match x with
  | Fin z => (0 <? z)%Z
  | Inf b => negb b
  | NaN => false
  end.

(** [String(n)] for an integer. *)
Definition showZ (z : Z) : string := NilZero.string_of_int (Z.to_int z).

(** [xs.sort(cmp)]: the language guarantees a stable sort whenever the
    comparator is a consistent ordering, and every stable sort then gives the
    same array, so a stable insertion sort stands for it.  [cmp a b > 0]
    means that [a] goes after [b]. *)
Fixpoint sort_insert {A : Type} (cmp : A -> A -> jsnum) (x : A) (l : list A) : list A :=
  match l with
  | [] => [x]
  | y :: l' => if isPositive (cmp x y) then y :: sort_insert cmp x l' else x :: l
  end.

Definition sort {A : Type} (cmp : A -> A -> jsnum) (l : list A) : list A :=
  fold_right (sort_insert cmp) [] l.

(* ================================================================== *)
(** ** Computations that may throw *)

Inductive result (A : Type) : Type :=
| Ok (a : A)
| Throw (msg : string).
Arguments Ok {A} a.
Arguments Throw {A} msg.

Definition M (S A : Type) : Type := S -> result A * S.

Definition ret {S A : Type} (a : A) : M S A := fun s => (Ok a, s).

Definition throw {S A : Type} (msg : string) : M S A := fun s => (Throw msg, s).

Definition bind {S A B : Type} (m : M S A) (k : A -> M S B) : M S B :=
  fun s => match m s with
           | (Ok a, s') => k a s'
           | (Throw e, s') => (Throw e, s')
           end.

(** [try { m } catch (error) { h error }], the error being its message. *)
Definition tryCatch {S A : Type} (m : M S A) (h : string -> M S A) : M S A :=
  fun s => match m s with
           | (Ok a, s') => (Ok a, s')
           | (Throw e, s') => h e s'
           end.

Notation "x <- m ;; k" := (bind m (fun x => k))
  (at level 61, m at next level, right associativity).
Notation "m ;;; k" := (bind m (fun _ => k))
  (at level 61, right associativity).

Definition when_ {S : Type} (b : bool) (m : M S unit) : M S unit :=
  if b then m else ret tt.

(* ================================================================== *)
(** ** The data of the git service *)

Record GitCommit : Type := {
  hash : string;
  date : string;
  message : string;
  body : option string;
  files : list string
}.

Record GetCommitsOptions : Type := {
  packageName : option string;
  packagePath : option string;
  filterByPath : option bool
}.

Record GitConfig : Type := {
  tagPrefix : string;
  requireCleanWorkingDirectory : bool;
  requireUpToDate : bool;
  commit : bool;
  push : bool;
  commitMessage : string;
  tag : bool;
  tagMessage : option string;
  allowedBranches : option (list string);
  remote : string
}.

Record PackageContext : Type := {
  name : string;
  path : string;
  currentVersion : string;
  newVersion : option string
}.

(** What [git.status()] answers. *)
Record StatusResult : Type := {
  isClean : bool;
  statusFiles : list string;
  tracking : option string;
  current : option string;
  behind : Z
}.

Record ValidateStatusOptions : Type := {
  skipUpstreamTracking : option bool;
  force : option bool;
  allowBranch : option bool
}.

(** The calls the service makes to the git client. *)
Inductive GitCall : Type :=
| CStatus
| CFetch (remoteName : string)
| CTags
| CRaw (args : list string)
| CAddAnnotatedTag (tagName tagMsg : string)
| CAdd (paths : list string)
| CCommit (msg : string)
| CPush (remoteName branch : string) (opts : list string).

Inductive LogLine : Type :=
| LInfo (text : string)
| LError (text : string) (cause : string).

(** The git client: each method answers from, and may change, a world [W]. *)
Class SimpleGit (W : Type) : Type := {
  sg_status : W -> result StatusResult * W;
  sg_fetch : string -> W -> result unit * W;
  sg_tags : W -> result (list string) * W;
  sg_raw : list string -> W -> result string * W;
  sg_addAnnotatedTag : string -> string -> W -> result unit * W;
  sg_add : list string -> W -> result unit * W;
  sg_commit : string -> W -> result unit * W;
  sg_push : string -> string -> list string -> W -> result unit * W
}.

(** Node's [path] module and the tag formatter of [utils/format-tag], which
    the service imports. *)
Class NodePath : Type := {
  path_relative : string -> string -> string;
  path_join : string -> string -> string;
  formatGitTag : string -> string -> string -> string
    (* packageName, version, tagPrefix *)
}.

Record GitState (W : Type) : Type := {
  world : W;
  calls : list GitCall;
  logs : list LogLine
}.
Arguments world {W} _.
Arguments calls {W} _.
Arguments logs {W} _.

Definition initial {W : Type} (w : W) : GitState W :=
  {| world := w; calls := []; logs := [] |}.

(** One call to the client: recorded, then answered by the client. *)
Definition invoke {W A : Type} (c : GitCall) (f : W -> result A * W) : M (GitState W) A :=
  fun s => let (r, w') := f (world s) in
           (r, {| world := w'; calls := calls s ++ [c]; logs := logs s |}).

Definition log {W : Type} (l : LogLine) : M (GitState W) unit :=
  fun s => (Ok tt, {| world := world s; calls := calls s; logs := logs s ++ [l] |}).

Record GitService : Type := {
  config : GitConfig;
  rootDir : string
}.

(* ================================================================== *)
(** ** The git service *)

Definition isTrue (o : option bool) : bool :=
  match o with Some b => b | None => false end.

Definition orElse {A : Type} (o : option A) (d : A) : A :=
  match o with Some a => a | None => d end.

Definition contains (xs : list string) (x : string) : bool :=
  existsb (String.eqb x) xs.

(** A [Set<string>] that is only added to and queried. *)
Definition StringSet : Type := list string.
Definition set_add (x : string) (s : StringSet) : StringSet :=
  if contains s x then s else s ++ [x].
Definition set_has (s : StringSet) (x : string) : bool := contains s x.

Definition logFormat : string := "--format=COMMIT%n%H%n%aI%n%s%n%b%nFILES".

(** The body of the parsing loop: one chunk of the log output gives one
    commit, or is skipped when it has fewer than three lines. *)
Definition parseChunk (chunk : string) : option GitCommit :=
  let parts := split chunk (nl +++ "FILES" +++ nl) in
  let commitData := nth 0 parts "" in
  let filesList := nth_error parts 1 in
  let lines := filterBoolean (split commitData nl) in
  let startIndex :=
    match lines with
    | l0 :: _ => if l0 =? "COMMIT" then 1 else 0
    | [] => 0
    end in
  if (length lines <? startIndex + 3)%nat then None
  else
    let bodyLines := skipn (startIndex + 3) lines in
    Some {| hash := nth startIndex lines "";
            date := nth (startIndex + 1) lines "";
            message := nth (startIndex + 2) lines "";
            body := if (0 <? length bodyLines)%nat then Some (join bodyLines nl) else None;
            files := match filesList with
                     | Some f => filterBoolean (split f nl)
                     | None => []
                     end |}.

Fixpoint parseChunks (chunks : list string) : list GitCommit :=
  match chunks with
  | [] => []
  | chunk :: rest =>
      match parseChunk chunk with
      | Some c => c :: parseChunks rest
      | None => parseChunks rest
      end
  end.

Definition parseLog (output : string) : list GitCommit :=
  parseChunks (filterBoolean (split output (nl +++ "COMMIT" +++ nl))).

Definition idx (parts : list jsnum) (i : nat) : jsnum := orZero (nth_error parts i).

(** The loop of [compareVersions]: [i] is the index, [n] the number of
    iterations left. *)
Fixpoint compareLoop (partsA partsB : list jsnum) (i n : nat) : jsnum :=
  match n with
  | O => Fin 0
  | S n' =>
      let numA := idx partsA i in
      let numB := idx partsB i in
      if strictNeq numA numB then jsSub numA numB
      else compareLoop partsA partsB (S i) n'
  end.

Definition compareVersions (a b : string) : jsnum :=
  let partsA := map Number (split a ".") in
  let partsB := map Number (split b ".") in
  compareLoop partsA partsB 0 (Nat.max (length partsA) (length partsB)).

(** [tag.split("@").pop() ?? ""] *)
Definition tagVersion (t : string) : string := orElse (pop (split t "@")) "".

Definition packageTagsOf (pkg : string) (all : list string) : list string :=
  sort (fun a b => compareVersions (tagVersion b) (tagVersion a))
       (filter (fun t => startsWith t (pkg +++ "@")) all).

Definition alreadyExistsMessage (tagName remoteName : string) : string :=
  "Tag " +++ tagName +++
  " already exists. Use --force to overwrite or manually delete the tag with:" +++
  nl +++ nl +++
  "  git tag -d " +++ tagName +++ nl +++
  "  git push " +++ remoteName +++ " :refs/tags/" +++ tagName.

Section Service.
Context {W : Type} `{SimpleGit W} `{NodePath}.

Definition G (A : Type) : Type := M (GitState W) A.

Definition validateStatus (self : GitService)
           (options : option ValidateStatusOptions) : G unit :=
  let cfg := config self in
  status <- invoke CStatus sg_status ;;
  (if requireCleanWorkingDirectory cfg && negb (isClean status)
   then throw ("Working directory is not clean. The following files have changes:" +++
               nl +++ "- " +++ join (statusFiles status) (nl +++ "- ") +++ nl +++ nl +++
               "To proceed anyway, you can:" +++ nl +++
               "1. Commit or stash your changes" +++ nl +++
               "2. Run with --no-git-check to skip this check")
   else ret tt) ;;;
  if match given (tracking status) with Some _ => false | None => true end
     && orElse (match options with
                | Some o => skipUpstreamTracking o
                | None => None
                end) (negb (requireUpToDate cfg))
  then ret tt
  else
    (if requireUpToDate cfg then
       invoke (CFetch (remote cfg)) (sg_fetch (remote cfg)) ;;;
       let currentBranch := orElse (current status) "" in
       if negb (truthy currentBranch) then throw "Not currently on any branch"
       else
         match given (tracking status) with
         | Some tr =>
             if (0 <? behind status)%Z
                && negb (isTrue (match options with Some o => force o | None => None end))
             then throw ("Branch " +++ currentBranch +++ " is behind " +++ tr +++
                         " by " +++ showZ (behind status) +++ " commits." +++ nl +++
                         "Please run 'git pull' to update your local branch or use --force to override.")
             else ret tt
         | None => ret tt
         end
     else ret tt) ;;;
    match allowedBranches cfg with
    | Some (b :: bs) =>
        if negb (isTrue (match options with Some o => force o | None => None end))
           && negb (isTrue (match options with Some o => allowBranch o | None => None end))
        then
          let currentBranch := orElse (current status) "" in
          if negb (contains (b :: bs) currentBranch)
          then throw ("Current branch " +++ currentBranch +++
                      " is not in allowed branches: " +++ join (b :: bs) ", " +++ "." +++
                      nl +++ nl +++
                      "To proceed anyway, you can:" +++ nl +++
                      "1. Switch to an allowed branch" +++ nl +++
                      "2. Run with --allow-branch to bypass branch restrictions")
          else ret tt
        else ret tt
    | _ => ret tt
    end.

Definition getLastTag (self : GitService) (pkg : string) : G string :=
  tags <- invoke CTags sg_tags ;;
  ret (match packageTagsOf pkg tags with
       | t :: _ => t
       | [] => ""
       end).

Definition getAllCommits (self : GitService) : G (list GitCommit) :=
  tryCatch
    (let logOptions := ["log"; logFormat; "--name-only"] in
     result <- invoke (CRaw logOptions) (sg_raw logOptions) ;;
     if negb (truthy result)
     then log (LInfo "No commits found in repository") ;;; ret []
     else ret (parseLog result))
    (fun error => log (LError "Failed to get all commits:" error) ;;; ret []).

(** The filter of [getCommitsSinceTag], applied when options are passed. *)
Definition filterCommits (self : GitService) (options : GetCommitsOptions)
           (commits : list GitCommit) : list GitCommit :=
  let matchedByPath :=
    match given (packagePath options) with
    | Some p =>
        let relativePath := path_relative (rootDir self) p in
        fold_left (fun s c =>
                     if existsb (fun file => startsWith file relativePath) (files c)
                     then set_add (hash c) s else s)
                  commits []
    | None => []
    end in
  let matchedByName :=
    match given (packageName options) with
    | Some n =>
        let marker := "(" +++ n +++ ")" in
        fold_left (fun s c =>
                     if includes (message c) marker
                        || match body c with
                           | Some b => includes b marker
                           | None => false
                           end
                     then set_add (hash c) s else s)
                  commits []
    | None => []
    end in
  filter (fun c => set_has matchedByPath (hash c) || set_has matchedByName (hash c))
         commits.

Definition getCommitsSinceTag (self : GitService) (tag : string)
           (options : option GetCommitsOptions) : G (list GitCommit) :=
  tryCatch
    (if negb (truthy tag)
     then log (LInfo "No previous tag found. Getting all commits instead.") ;;;
          getAllCommits self
     else
       let verifyCommand := ["log"; "-1"; "--oneline"] in
       invoke (CRaw verifyCommand) (sg_raw verifyCommand) ;;;
       let logOptions := ["log"; logFormat; "--name-only"; tag +++ "..HEAD"] in
       result <- invoke (CRaw logOptions) (sg_raw logOptions) ;;
       if negb (truthy result) then ret []
       else
         let commits := parseLog result in
         match options with
         | Some o => ret (filterCommits self o commits)
         | None => ret commits
         end)
    (fun error =>
       log (LError ("Failed to get commits since tag " +++ tag +++ ":") error) ;;;
       ret []).

Definition getTagName (self : GitService) (pkg version : string) : string :=
  formatGitTag pkg version (tagPrefix (config self)).

Definition checkTagExists (self : GitService) (tagName : string) : G bool :=
  let args := ["rev-parse"; "refs/tags/" +++ tagName] in
  tryCatch (invoke (CRaw args) (sg_raw args) ;;; ret true)
           (fun _ => ret false).

Definition deleteTag (self : GitService) (tagName : string)
           (remoteFlag : option bool) : G unit :=
  localTagExists <- checkTagExists self tagName ;;
  tryCatch
    (when_ localTagExists
           (let args := ["tag"; "-d"; tagName] in
            invoke (CRaw args) (sg_raw args) ;;; ret tt) ;;;
     when_ (isTrue remoteFlag && truthy (remote (config self)))
           (tryCatch
              (let args := ["push"; remote (config self); ":refs/tags/" +++ tagName] in
               invoke (CRaw args) (sg_raw args) ;;; ret tt)
              (fun _ => ret tt)))
    (fun error =>
       if localTagExists
       then throw ("Failed to delete tag " +++ tagName +++ ": " +++ error)
       else ret tt).

Definition createTag (self : GitService) (context : PackageContext)
           (forceFlag : option bool) : G string :=
  match given (newVersion context) with
  | None => throw "Version is required to create a tag"
  | Some version =>
      let tagName := getTagName self (name context) version in
      let tagMsg := orElse (tagMessage (config self)) ("Release " +++ tagName) in
      tryCatch
        (tagExists <- checkTagExists self tagName ;;
         when_ tagExists
               (if isTrue forceFlag
                then deleteTag self tagName (Some true)
                else throw (alreadyExistsMessage tagName (remote (config self)))) ;;;
         invoke (CAddAnnotatedTag tagName tagMsg) (sg_addAnnotatedTag tagName tagMsg) ;;;
         ret tagName)
        (fun errorMessage =>
           if includes errorMessage "already exists"
           then throw (alreadyExistsMessage tagName (remote (config self)))
           else throw errorMessage)
  end.

Definition commitChanges (self : GitService) (context : PackageContext)
           (changelogPath : string) : G unit :=
  match given (newVersion context) with
  | None => throw "New version is required to create a commit message"
  | Some version =>
      let relativePackagePath := path_relative (rootDir self) (path context) in
      let relativeChangelogPath := path_relative (rootDir self) changelogPath in
      let filesToAdd :=
        filterBoolean [path_join relativePackagePath "package.json";
                       relativeChangelogPath] in
      tryCatch
        (invoke (CAdd filesToAdd) (sg_add filesToAdd) ;;;
         let msg := replace (replace (commitMessage (config self))
                                     "${packageName}" (name context))
                            "${version}" version in
         invoke (CCommit msg) (sg_commit msg))
        (fun error => throw ("Failed to commit changes: " +++ error))
  end.

End Service.

(* ================================================================== *)
(** ** A small repository on which the service can be run *)

(** The state of a repository as far as the client's answers depend on it:
    its tags, the log of the whole history, the log since each known tag,
    its status, whether the remote accepts pushes and whether the reference
    store can be written. *)
Record ToyRepo : Type := {
  toy_tags : list string;
  toy_history : string;
  toy_since : list (string * string);
  toy_status : StatusResult;
  toy_remote_ok : bool;
  toy_writable : bool;
  toy_commits : list string
}.

Definition toy_with_tags (w : ToyRepo) (ts : list string) : ToyRepo :=
  {| toy_tags := ts; toy_history := toy_history w; toy_since := toy_since w;
     toy_status := toy_status w; toy_remote_ok := toy_remote_ok w;
     toy_writable := toy_writable w; toy_commits := toy_commits w |}.

Definition toy_with_commit (w : ToyRepo) (m : string) : ToyRepo :=
  {| toy_tags := toy_tags w; toy_history := toy_history w; toy_since := toy_since w;
     toy_status := toy_status w; toy_remote_ok := toy_remote_ok w;
     toy_writable := toy_writable w; toy_commits := toy_commits w ++ [m] |}.

Fixpoint assoc (k : string) (l : list (string * string)) : option string :=
  match l with
  | [] => None
  | (k', v) :: l' => if k =? k' then Some v else assoc k l'
  end.

Definition toy_raw (args : list string) (w : ToyRepo) : result string * ToyRepo :=
  match args with
  | ["log"; "-1"; "--oneline"] => (Ok "0000000 head", w)
  | ["log"; _; "--name-only"] => (Ok (toy_history w), w)
  | ["log"; _; "--name-only"; range] =>
      match assoc range (toy_since w) with
      | Some out => (Ok out, w)
      | None => (Throw ("fatal: ambiguous argument '" +++ range +++ "': unknown revision"), w)
      end
  | ["rev-parse"; ref] =>
      match stripPrefix "refs/tags/" ref with
      | Some t => if contains (toy_tags w) t then (Ok "0000000", w)
                  else (Throw "fatal: ambiguous argument: unknown revision", w)
      | None => (Throw "fatal: ambiguous argument: unknown revision", w)
      end
  | ["tag"; "-d"; t] =>
      if negb (toy_writable w) then (Throw "error: cannot lock ref", w)
      else if contains (toy_tags w) t
           then (Ok "Deleted tag",
                 toy_with_tags w (filter (fun x => negb (x =? t)) (toy_tags w)))
           else (Throw ("error: tag '" +++ t +++ "' not found."), w)
  | ["push"; _; _] =>
      if toy_remote_ok w then (Ok "", w)
      else (Throw "fatal: unable to access remote", w)
  | _ => (Throw "git: unknown command", w)
  end.

#[export] Instance ToyGit : SimpleGit ToyRepo := {|
  sg_status := fun w => (Ok (toy_status w), w);
  sg_fetch := fun _ w => if toy_remote_ok w then (Ok tt, w)
                         else (Throw "fatal: unable to access remote", w);
  sg_tags := fun w => (Ok (toy_tags w), w);
  sg_raw := toy_raw;
  sg_addAnnotatedTag := fun t _ w =>
    if negb (toy_writable w) then (Throw "error: cannot lock ref", w)
    else if contains (toy_tags w) t
         then (Throw ("fatal: tag '" +++ t +++ "' already exists"), w)
         else (Ok tt, toy_with_tags w (toy_tags w ++ [t]));
  sg_add := fun _ w => (Ok tt, w);
  sg_commit := fun m w => (Ok tt, toy_with_commit w m);
  sg_push := fun _ _ _ w => if toy_remote_ok w then (Ok tt, w)
                            else (Throw "fatal: unable to access remote", w)
|}.

(** Modelled from the spec: [formatGitTag] of [utils/format-tag] is not among
    the sources; the specification names a tag
    [<optional-prefix><packageName>@<version>].  The two [path] functions are
    Node's, on relative POSIX paths without dots. *)
#[export] Instance ToyPath : NodePath := {|
  path_relative := fun root p =>
    match stripPrefix (root +++ "/") p with
    | Some r => r
    | None => if p =? root then "" else p
    end;
  path_join := fun a b => if a =? "" then b else a +++ "/" +++ b;
  formatGitTag := fun pkg version prefix => prefix +++ pkg +++ "@" +++ version
|}.

Definition cleanStatus : StatusResult :=
  {| isClean := true; statusFiles := []; tracking := Some "origin/main";
     current := Some "main"; behind := 0 |}.

(** Two commits, the newer one touching package [b], the older one package [a]. *)
Definition sampleLog : string :=
  "COMMIT" +++ nl +++ "h2" +++ nl +++ "2024-02-01" +++ nl +++ "fix: two" +++ nl +++
  nl +++ "FILES" +++ nl +++ nl +++ "packages/b/x.ts" +++ nl +++ nl +++
  "COMMIT" +++ nl +++ "h1" +++ nl +++ "2024-01-01" +++ nl +++ "feat: one" +++ nl +++
  "details" +++ nl +++ "FILES" +++ nl +++ nl +++ "packages/a/src/x.ts" +++ nl.

Definition sampleRepo : ToyRepo :=
  {| toy_tags := ["a@1.0.0"; "a@1.0.1"; "b@0.1.0"];
     toy_history := sampleLog;
     toy_since := [("a@1.0.1..HEAD", sampleLog)];
     toy_status := cleanStatus;
     toy_remote_ok := true;
     toy_writable := true;
     toy_commits := [] |}.

Definition sampleConfig : GitConfig :=
  {| tagPrefix := ""; requireCleanWorkingDirectory := true; requireUpToDate := true;
     commit := true; push := true;
     commitMessage := "chore(release): release ${packageName}@${version}";
     tag := true; tagMessage := None;
     allowedBranches := Some ["main"; "master"]; remote := "origin" |}.

Definition sampleService : GitService :=
  {| config := sampleConfig; rootDir := "/repo" |}.

(** The [git] section of the configuration object that
    [generateMonorepoConfig] serialises, for the package name found in the
    root [package.json]; an empty name is refused. *)
Definition generateMonorepoConfig (packageJsonName : string) : result GitConfig :=
  if negb (truthy packageJsonName) then Throw "Package name is required"
  else Ok {| tagPrefix := "";
             requireCleanWorkingDirectory := true;
             requireUpToDate := true;
             commit := true;
             push := true;
             commitMessage := "chore(release): release " +++ packageJsonName +++ "@${version}";
             tag := true;
             tagMessage := None;
             allowedBranches := Some ["main"; "master"];
             remote := "origin" |}.

(* ================================================================== *)
(** ** Commands: computations that may throw or end the process *)

Inductive outcome (A : Type) : Type :=
| Done (a : A)
| Raised (msg : string)
| Exited (code : Z).
Arguments Done {A} a.
Arguments Raised {A} msg.
Arguments Exited {A} code.

Definition C (S A : Type) : Type := S -> outcome A * S.

Definition cret {S A : Type} (a : A) : C S A := fun s => (Done a, s).

Definition cbind {S A B : Type} (m : C S A) (k : A -> C S B) : C S B :=
  fun s => match m s with
           | (Done a, s') => k a s'
           | (Raised e, s') => (Raised e, s')
           | (Exited n, s') => (Exited n, s')
           end.

(** [try { m } catch (error) { h error }]: leaving the process is not caught. *)
Definition ccatch {S A : Type} (m : C S A) (h : string -> C S A) : C S A :=
  fun s => match m s with
           | (Raised e, s') => h e s'
           | r => r
           end.

Notation "x <~ m ;; k" := (cbind m (fun x => k))
  (at level 61, m at next level, right associativity).
Notation "m ;;~ k" := (cbind m (fun _ => k))
  (at level 61, right associativity).

(** One call to an outside service: the event is recorded and the service's
    answer returned or thrown. *)
Definition ask {E A : Type} (e : E) (answer : result A) : C (list E) A :=
  fun evs => (match answer with Ok a => Done a | Throw m => Raised m end, evs ++ [e]).

Definition emit {E : Type} (e : E) : C (list E) unit :=
  fun evs => (Done tt, evs ++ [e]).

(** A step that calls no outside service: its value, or what it throws. *)
Definition liftResult {S A : Type} (r : result A) : C S A :=
  fun s => (match r with Ok a => Done a | Throw m => Raised m end, s).

Fixpoint forEach {S A : Type} (xs : list A) (f : A -> C S unit) : C S unit :=
  match xs with
  | [] => cret tt
  | x :: xs' => f x ;;~ forEach xs' f
  end.

(* ================================================================== *)
(** ** The release command *)

Module Release.

Record ReleaseCommandOptions : Type := {
  all : option bool;
  dryRun : option bool;
  version : option string;
  gitPush : option bool;
  npmPublish : option bool;
  showChanges : option bool;
  checkIntegrity : option bool;
  gitCheck : option bool;
  skipUpstreamTracking : option bool;
  force : option bool;
  allowBranch : option bool;
  otp : option string
}.

(** The options object handed to the release service. *)
Record ReleaseOptions : Type := {
  ro_dryRun : option bool;
  ro_gitPush : option bool;
  ro_npmPublish : option bool;
  ro_publish : option bool;
  ro_skipIntegrityCheck : option bool;
  ro_skipGitCheck : option bool;
  ro_skipUpstreamTracking : option bool;
  ro_force : option bool;
  ro_allowBranch : option bool;
  ro_newVersion : option string
}.

Record DependencyUpdate : Type := {
  du_name : string;
  du_currentVersion : string;
  du_newVersion : string;
  du_type : string
}.

Record PackageChanges : Type := {
  pc_name : string;
  pc_currentVersion : string;
  pc_suggestedVersion : string;
  pc_hasGitChanges : bool;
  pc_dependencies : list DependencyUpdate
}.

Record DryRunReport : Type := {
  dr_packageName : string;
  dr_currentVersion : string;
  dr_newVersion : string;
  dr_gitTag : string;
  dr_gitWillPush : bool;
  dr_npmWillPublish : option bool;
  dr_dependencies : option (list DependencyUpdate);
  dr_changelog : string
}.

Record ReleaseResult : Type := {
  rr_packageName : string;
  rr_version : string
}.

(** What the command asks of its collaborators, and what it prints. *)
Inductive Event : Type :=
| LoadConfig
| SetOtp (code : string)
| GetChangedPackages
| GetCurrentPackage
| AnalyzeChanges (pkgs : list string)
| CreateDryRunPreview (pkg : PackageChanges) (opts : ReleaseOptions)
| PreviewChangelog (pkg : string)
| GetGitChanges (pkg : string)
| ConfirmRelease
| ReleaseAll (opts : ReleaseOptions)
| ReleasePackages (pkgs : list string) (opts : ReleaseOptions)
| Info (line : string)
| Error (line detail : string).

(** The answers of the configuration loader, the workspace service, the
    release service and the prompt. *)
Class Host : Type := {
  loadConfig : result unit;
  getChangedPackages : result (list string);
  getCurrentPackage : result (option string);
  analyzeChanges : list string -> result (list PackageChanges);
  createDryRunPreview : PackageChanges -> ReleaseOptions -> result DryRunReport;
  previewChangelog : string -> result string;
  getGitChanges : string -> result (list string);
  confirmRelease : result bool;
  releaseAll : ReleaseOptions -> result unit;
  releasePackages : list string -> ReleaseOptions
                    -> result (list (DryRunReport + ReleaseResult));
  chalk_gray : string -> string
}.


Fixpoint repeatString (s : string) (n : nat) : string :=
  match n with
  | O => ""
  | S n' => s +++ repeatString s n'
  end.

Definition yesNo (b : bool) : string := if b then "Yes" else "No".

Definition isRelease (e : Event) : bool :=
  match e with
  | ReleaseAll _ | ReleasePackages _ _ => true
  | _ => false
  end.

Section Command.
Context `{Host}.

Definition K (A : Type) : Type := C (list Event) A.

Definition exit {A : Type} (code : Z) : K A := fun evs => (Exited code, evs).

Definition previewOptions (o : ReleaseCommandOptions) (pkg : PackageChanges)
  : ReleaseOptions :=
  {| ro_dryRun := Some true;
     ro_gitPush := gitPush o;
     ro_npmPublish := None;
     ro_publish := npmPublish o;
     ro_skipIntegrityCheck := None;
     ro_skipGitCheck := Some (negb (isTrue (gitCheck o)));
     ro_skipUpstreamTracking := skipUpstreamTracking o;
     ro_force := force o;
     ro_allowBranch := None;
     ro_newVersion := Some (pc_suggestedVersion pkg) |}.

Definition releaseOptions (o : ReleaseCommandOptions) : ReleaseOptions :=
  {| ro_dryRun := dryRun o;
     ro_gitPush := gitPush o;
     ro_npmPublish := npmPublish o;
     ro_publish := None;
     ro_skipIntegrityCheck := checkIntegrity o;
     ro_skipGitCheck := Some (negb (isTrue (gitCheck o)));
     ro_skipUpstreamTracking := skipUpstreamTracking o;
     ro_force := force o;
     ro_allowBranch := allowBranch o;
     ro_newVersion := None |}.

(** The lines of the dry-run report of one package. *)
Definition showDryRun (o : ReleaseCommandOptions) (pkg : PackageChanges) : K unit :=
  let opts := previewOptions o pkg in
  dryRunReport <~ ask (CreateDryRunPreview pkg opts) (createDryRunPreview pkg opts) ;;
  emit (Info (nl +++ "📦 Dry Run Report")) ;;~
  emit (Info (repeatString "━" 50)) ;;~
  emit (Info ("Package: " +++ dr_packageName dryRunReport)) ;;~
  emit (Info ("Version: " +++ dr_currentVersion dryRunReport +++ " → " +++
              dr_newVersion dryRunReport)) ;;~
  emit (Info ("Git Tag: " +++ dr_gitTag dryRunReport)) ;;~
  emit (Info ("Git Push: " +++ yesNo (dr_gitWillPush dryRunReport))) ;;~
  match dr_npmWillPublish dryRunReport with
  | Some willPublish => emit (Info ("NPM Publish: " +++ yesNo willPublish))
  | None => cret tt
  end ;;~
  match dr_dependencies dryRunReport with
  | Some (d :: ds) =>
      emit (Info (nl +++ "Dependency Updates:")) ;;~
      forEach (d :: ds) (fun dep =>
        emit (Info ("  " +++ du_name dep +++ ": " +++ du_currentVersion dep +++
                    " → " +++ du_newVersion dep +++ " (" +++ du_type dep +++ ")")))
  | _ => cret tt
  end ;;~
  emit (Info (nl +++ "📝 Changelog Preview:")) ;;~
  emit (Info (repeatString "━" 50)) ;;~
  emit (Info (dr_changelog dryRunReport)).

(** The lines shown for one package outside dry-run mode. *)
Definition showPackage (pkg : PackageChanges) : K unit :=
  emit (Info (nl +++ "📦 " +++ pc_name pkg)) ;;~
  emit (Info ("  Current version: " +++ pc_currentVersion pkg)) ;;~
  emit (Info ("  Suggested version: " +++ pc_suggestedVersion pkg)) ;;~
  emit (Info (nl +++ "  📝 Changelog Preview:")) ;;~
  emit (Info (chalk_gray "  ----------------------------------------")) ;;~
  changelogContent <~ ask (PreviewChangelog (pc_name pkg)) (previewChangelog (pc_name pkg)) ;;
  emit (Info (join (map (fun line => "  " +++ line) (split changelogContent nl)) nl)) ;;~
  emit (Info (chalk_gray "  ----------------------------------------")) ;;~
  (if pc_hasGitChanges pkg then
     emit (Info (nl +++ "  📝 Git Changes:")) ;;~
     gitChanges <~ ask (GetGitChanges (pc_name pkg)) (getGitChanges (pc_name pkg)) ;;
     forEach gitChanges (fun m => emit (Info ("    - " +++ m)))
   else cret tt) ;;~
  match pc_dependencies pkg with
  | d :: ds =>
      emit (Info (nl +++ "  🔄 Dependency Updates:")) ;;~
      forEach (d :: ds) (fun dep =>
        emit (Info ("    - " +++ du_name dep +++ ": " +++ du_currentVersion dep +++
                    " -> " +++ du_newVersion dep)))
  | [] => cret tt
  end.

Definition action (packages : list string) (o : ReleaseCommandOptions) : K unit :=
  ccatch
    (ask LoadConfig loadConfig ;;~
     match given (otp o) with
     | Some code => emit (SetOtp code)
     | None => cret tt
     end ;;~
     packagesToAnalyze <~
       (if isTrue (all o) then ask GetChangedPackages getChangedPackages
        else match packages with
             | [] =>
                 currentPackage <~ ask GetCurrentPackage getCurrentPackage ;;
                 cret (match currentPackage with Some p => [p] | None => [] end)
             | _ => cret packages
             end) ;;
     match packagesToAnalyze with
     | [] =>
         emit (Error "No packages to release. Use --all flag, specify package names, or run from within a package directory." "") ;;~
         exit 1
     | _ => cret tt
     end ;;~
     (if orElse (showChanges o) (isTrue (dryRun o)) then
        changes <~ ask (AnalyzeChanges packagesToAnalyze) (analyzeChanges packagesToAnalyze) ;;
        forEach changes (fun pkg =>
          if isTrue (dryRun o) then showDryRun o pkg else showPackage pkg) ;;~
        (if isTrue (dryRun o)
         then emit (Info (nl +++ "✨ Dry run completed")) ;;~ exit 0
         else cret tt) ;;~
        confirmed <~ ask ConfirmRelease confirmRelease ;;
        if negb confirmed then emit (Info "Release cancelled.") ;;~ exit 0
        else cret tt
      else cret tt) ;;~
     let opts := releaseOptions o in
     if isTrue (all o) then ask (ReleaseAll opts) (releaseAll opts)
     else
       results <~ ask (ReleasePackages packagesToAnalyze opts)
                      (releasePackages packagesToAnalyze opts) ;;
       emit (Info "Release results:") ;;~
       forEach results (fun r =>
         match r with
         | inl report =>
             emit (Info ("  " +++ dr_packageName report +++ ": " +++
                         dr_newVersion report +++ " (dry run)"))
         | inr res =>
             emit (Info ("  " +++ rr_packageName res +++ ": " +++ rr_version res))
         end))
    (fun error => emit (Error "Release failed:" error) ;;~ exit 1).

End Command.

End Release.

(* ================================================================== *)
(** ** The package manager factory *)

Module PackageManagerFactory.

(** [PackageManagerFactory.create]: the switch over the name of the
    package manager.  The services themselves ([NpmService],
    [YarnService]) are not among the sources and are the host's; what is
    kept here is whether a service is created or the [default] branch
    throws.  The debug lines of the logger are not recorded. *)
Definition create (packageManager : string) : result unit :=
  if packageManager =? "npm" then Ok tt
  else if packageManager =? "yarn" then Ok tt
  else Throw "Unsupported package manager".

End PackageManagerFactory.

(* ================================================================== *)
(** ** The validate command *)

Module Validate.

Record ValidateCommandOptions : Type := {
  all : option bool;
  authOnly : option bool;
  gitOnly : option bool;
  depsOnly : option bool;
  versionOnly : option bool;
  changelogOnly : option bool;
  publishOnly : option bool;
  skipAuth : option bool;
  skipGit : option bool;
  skipDeps : option bool;
  skipVersion : option bool;
  skipChangelog : option bool;
  skipPublish : option bool;
  skipUpstreamTracking : option bool;
  skipPublishCheck : option bool;
  skipDependencyCheck : option bool;
  validatePack : option bool;
  depsReport : option bool;
  depsReportJson : option bool
}.

Record ValidationResult : Type := {
  vr_name : string;
  success : bool;
  error : option string
}.

Record PackageValidationReport : Type := {
  packageName : string;
  validations : list ValidationResult;
  hasErrors : bool
}.

(** The part of a package's release configuration the command reads. *)
Record ReleaseConfig : Type := {
  npm_publish : bool;
  packageManager : string
}.

(** The calls made to the git service, the package manager, the integrity
    service, the version service and the changelog service. *)
Inductive Event : Type :=
| GetPackageConfig (pkg : string)
| GitValidateStatus (skipUpstream : bool)
| ValidateAuth
| GetLatestVersion (pkg : string)
| Pack (pkg : string)
| CheckWithDetails
| ValidateVersion (v : string)
| ChangelogValidate (pkg : string).

(** The declared type of the command's [packageManager] field, which
    [PackageManagerFactory.create] takes: ["npm" | "yarn"]. *)
Inductive PackageManager : Type := npm | yarn.

Definition packageManagerName (pm : PackageManager) : string :=
  match pm with
  | npm => "npm"
  | yarn => "yarn"
  end.

(** The command's own package manager ([this.packageManager]) and the
    answers of those services; [checkWithDetails] answers whether some
    issue has severity [error]. *)
Class Host : Type := {
  this_packageManager : PackageManager;
  getPackageConfig : string -> result ReleaseConfig;
  gitValidateStatus : bool -> result unit;
  validateAuth : result unit;
  getLatestVersion : string -> result string;
  pack : string -> result unit;
  checkWithDetails : result bool;
  validateVersion : string -> result unit;
  changelogValidate : string -> result unit
}.

(** The names of the check registry. *)
Inductive Check : Type := auth | git | deps | version | changelog | publish.

(** [a ?? b ?? ...]: the first operand that is not [undefined]. *)
Fixpoint firstDefined (xs : list (option bool)) : option bool :=
  match xs with
  | [] => None
  | Some b :: _ => Some b
  | None :: xs' => firstDefined xs'
  end.

Definition onlyMode (options : ValidateCommandOptions) : bool :=
  isTrue (firstDefined [authOnly options; gitOnly options; depsOnly options;
                        versionOnly options; changelogOnly options;
                        publishOnly options]).

Definition onlyFlag (options : ValidateCommandOptions) (check : Check) : option bool :=
  match check with
  | auth => authOnly options
  | git => gitOnly options
  | deps => depsOnly options
  | version => versionOnly options
  | changelog => changelogOnly options
  | publish => publishOnly options
  end.

Definition skipFlag (options : ValidateCommandOptions) (check : Check) : option bool :=
  match check with
  | auth => skipAuth options
  | git => skipGit options
  | deps => skipDeps options
  | version => skipVersion options
  | changelog => skipChangelog options
  | publish => skipPublish options
  end.

Definition shouldValidate (options : ValidateCommandOptions) (check : Check) : bool :=
  if onlyMode options
  then isTrue (onlyFlag options check)
  else negb (isTrue (skipFlag options check)).

Section Command.
Context `{Host}.

Definition V (A : Type) : Type := C (list Event) A.

(** The logger's lines are not recorded in this part, and the durations
    measured by [runValidation] are left out of its result. *)
Definition runValidation (vname : string) (validationFn : V unit)
  : V ValidationResult :=
  ccatch (validationFn ;;~
          cret {| vr_name := vname; success := true; error := None |})
         (fun e => cret {| vr_name := vname; success := false; error := Some e |}).

Definition validateGitStatus (options : ValidateCommandOptions) : V unit :=
  let skip := isTrue (skipUpstreamTracking options) in
  ask (GitValidateStatus skip) (gitValidateStatus skip).

Definition validatePackageManager (cfg : ReleaseConfig) (pkg : PackageContext)
           (options : ValidateCommandOptions) : V unit :=
  if negb (npm_publish cfg) then cret tt
  else
    ccatch (ask ValidateAuth validateAuth)
           (fun errorMessage =>
              if includes errorMessage "No authentication configured"
              then fun s =>
                     (Raised ("Authentication not configured for " +++ packageManager cfg +++
                              "." +++ nl +++
                              "Please configure authentication:" +++ nl +++
                              "- For Yarn Berry: Add npmAuthToken to .yarnrc.yml" +++ nl +++
                              "- For Yarn Classic: Run 'yarn login'" +++ nl +++
                              "- For NPM: Run 'npm login'"), s)
              else fun s => (Raised ("Authentication failed: " +++ errorMessage), s)) ;;~
    if negb (isTrue (skipPublishCheck options)) then
      latestVersion <~ ask (GetLatestVersion (name pkg)) (getLatestVersion (name pkg)) ;;
      if latestVersion =? currentVersion pkg
      then fun s =>
             (Raised ("Version " +++ currentVersion pkg +++ " already exists in registry. " +++
                      "Please increment the version number before publishing."), s)
      else
        if isTrue (validatePack options)
        then ccatch (ask (Pack (name pkg)) (pack (name pkg)))
                    (fun e s =>
                       (Raised ("Failed to pack package: " +++ e +++ nl +++
                                "Please ensure all required files are present and build artifacts are generated."),
                        s))
        else cret tt
    else cret tt.

Definition validateDependencies (options : ValidateCommandOptions) : V unit :=
  if isTrue (skipDependencyCheck options) then cret tt
  else
    ccatch
      (hasErrorIssue <~ ask CheckWithDetails checkWithDetails ;;
       if isTrue (depsReportJson options) then cret tt
       else
         if negb (isTrue (depsReport options)) && hasErrorIssue
         then fun s =>
                (Raised "Dependency validation failed. Please address the issues above.", s)
         else cret tt)
      (fun e s =>
         if negb (isTrue (depsReport options)) then (Raised e, s) else (Done tt, s)).

Definition validateVersioning (pkg : PackageContext) : V unit :=
  ask (ValidateVersion (currentVersion pkg)) (validateVersion (currentVersion pkg)).

Definition validateChangelog (pkg : PackageContext) : V unit :=
  ask (ChangelogValidate (name pkg)) (changelogValidate (name pkg)).

(** [if (cond) validations.push(await runValidation(...))] *)
Definition pushIf (cond : bool) (vname : string) (validationFn : V unit)
           (acc : list ValidationResult) : V (list ValidationResult) :=
  if cond then r <~ runValidation vname validationFn ;; cret (acc ++ [r])
  else cret acc.

(** The services are created once the configuration is read, outside any
    [try]: the package manager service by the factory; the integrity,
    version and changelog services by constructors that are not among the
    sources and are taken to store their arguments. *)
Definition validatePackage (pkg : PackageContext) (options : ValidateCommandOptions)
  : V PackageValidationReport :=
  packageConfig <~ ask (GetPackageConfig (name pkg)) (getPackageConfig (name pkg)) ;;
  liftResult (PackageManagerFactory.create (packageManagerName this_packageManager)) ;;~
  v1 <~ pushIf (shouldValidate options git) "Git Status"
               (validateGitStatus options) [] ;;
  v2 <~ pushIf (shouldValidate options auth || shouldValidate options publish)
               "Package Manager"
               (validatePackageManager packageConfig pkg options) v1 ;;
  v3 <~ pushIf (shouldValidate options deps) "Dependencies"
               (validateDependencies options) v2 ;;
  v4 <~ pushIf (shouldValidate options version) "Version Format"
               (validateVersioning pkg) v3 ;;
  v5 <~ pushIf (shouldValidate options changelog) "Changelog"
               (validateChangelog pkg) v4 ;;
  cret {| packageName := name pkg;
          validations := v5;
          hasErrors := existsb (fun v => negb (success v)) v5 |}.

End Command.

End Validate.

(* ================================================================== *)
(** ** Hosts on which the commands can be run *)

Definition samplePackage : PackageContext :=
  {| name := "a"; path := "/repo/packages/a";
     currentVersion := "1.0.0"; newVersion := Some "1.0.1" |}.

Definition sampleChanges : Release.PackageChanges :=
  {| Release.pc_name := "a"; Release.pc_currentVersion := "1.0.0";
     Release.pc_suggestedVersion := "1.0.1"; Release.pc_hasGitChanges := true;
     Release.pc_dependencies := [] |}.

Definition sampleReport : Release.DryRunReport :=
  {| Release.dr_packageName := "a"; Release.dr_currentVersion := "1.0.0";
     Release.dr_newVersion := "1.0.1"; Release.dr_gitTag := "a@1.0.1";
     Release.dr_gitWillPush := true; Release.dr_npmWillPublish := Some true;
     Release.dr_dependencies := None;
     Release.dr_changelog := "## [1.0.1]" |}.

#[export] Instance sampleReleaseHost : Release.Host := {|
  Release.loadConfig := Ok tt;
  Release.getChangedPackages := Ok ["a"];
  Release.getCurrentPackage := Ok (Some "a");
  Release.analyzeChanges := fun _ => Ok [sampleChanges];
  Release.createDryRunPreview := fun _ _ => Ok sampleReport;
  Release.previewChangelog := fun _ => Ok "## [1.0.1]";
  Release.getGitChanges := fun _ => Ok ["fix: patch bug"];
  Release.confirmRelease := Ok true;
  Release.releaseAll := fun _ => Ok tt;
  Release.releasePackages := fun _ _ =>
    Ok [inr {| Release.rr_packageName := "a"; Release.rr_version := "1.0.1" |}];
  Release.chalk_gray := fun s => s
|}.


#[export] Instance sampleValidateHost : Validate.Host := {|
  Validate.this_packageManager := Validate.npm;
  Validate.getPackageConfig := fun _ =>
    Ok {| Validate.npm_publish := true; Validate.packageManager := "npm" |};
  Validate.gitValidateStatus := fun _ => Ok tt;
  Validate.validateAuth := Ok tt;
  Validate.getLatestVersion := fun _ => Ok "0.9.0";
  Validate.pack := fun _ => Ok tt;
  Validate.checkWithDetails := Ok false;
  Validate.validateVersion := fun _ => Ok tt;
  Validate.changelogValidate := fun _ => Ok tt
|}.

Definition noFlags : Validate.ValidateCommandOptions :=
  {| Validate.all := None;
     Validate.authOnly := None; Validate.gitOnly := None; Validate.depsOnly := None;
     Validate.versionOnly := None; Validate.changelogOnly := None;
     Validate.publishOnly := None;
     Validate.skipAuth := None; Validate.skipGit := None; Validate.skipDeps := None;
     Validate.skipVersion := None; Validate.skipChangelog := None;
     Validate.skipPublish := None;
     Validate.skipUpstreamTracking := None; Validate.skipPublishCheck := None;
     Validate.skipDependencyCheck := None; Validate.validatePack := None;
     Validate.depsReport := None; Validate.depsReportJson := None |}.

(** [publisher validate --skip-auth] *)
Definition skipAuthFlags : Validate.ValidateCommandOptions :=
  {| Validate.all := None;
     Validate.authOnly := None; Validate.gitOnly := None; Validate.depsOnly := None;
     Validate.versionOnly := None; Validate.changelogOnly := None;
     Validate.publishOnly := None;
     Validate.skipAuth := Some true; Validate.skipGit := None; Validate.skipDeps := None;
     Validate.skipVersion := None; Validate.skipChangelog := None;
     Validate.skipPublish := None;
     Validate.skipUpstreamTracking := None; Validate.skipPublishCheck := None;
     Validate.skipDependencyCheck := None; Validate.validatePack := None;
     Validate.depsReport := None; Validate.depsReportJson := None |}.

(* ================================================================== *)
(** ** Vocabulary of the statements *)

(** The state after one more line was logged. *)
Definition logged {W : Type} (s : GitState W) (l : LogLine) : GitState W :=
  {| world := world s; calls := calls s; logs := logs s ++ [l] |}.

(** The state after the calls [cs] were made and left the world [w]. *)
Definition called {W : Type} (s : GitState W) (w : W) (cs : list GitCall) : GitState W :=
  {| world := w; calls := calls s ++ cs; logs := logs s |}.

(** Predicate (a) of the filter: some changed file lies under the path. *)
Definition touchesPath (relativePath : string) (c : GitCommit) : bool :=
  existsb (fun file => startsWith file relativePath) (files c).

(** Predicate (b) of the filter: the subject or the body carries the marker
    [(<packageName>)]. *)
Definition mentions (pkg : string) (c : GitCommit) : bool :=
  includes (message c) ("(" +++ pkg +++ ")")
  || match body c with
     | Some b => includes b ("(" +++ pkg +++ ")")
     | None => false
     end.

(** The filter in the specification's words: (a) or (b), each for the filter
    input that is given. *)
Definition keeps `{NodePath} (self : GitService) (options : GetCommitsOptions)
           (c : GitCommit) : bool :=
  match given (packagePath options) with
  | Some p => touchesPath (path_relative (rootDir self) p) c
  | None => false
  end
  || match given (packageName options) with
     | Some n => mentions n c
     | None => false
     end.

Definition noFilterInputs : GetCommitsOptions :=
  {| packageName := None; packagePath := None; filterByPath := None |}.

Definition revParseArgs (tagName : string) : list string :=
  ["rev-parse"; "refs/tags/" +++ tagName].

Definition tagDeleteArgs (tagName : string) : list string := ["tag"; "-d"; tagName].

Definition remoteDeleteArgs (self : GitService) (tagName : string) : list string :=
  ["push"; remote (config self); ":refs/tags/" +++ tagName].

(** The best-effort deletion of the remote tag, whatever its outcome: the
    call made, if any, and the world it leaves. *)
Definition remoteDeletion {W : Type} `{SimpleGit W} (self : GitService)
           (tagName : string) (remoteFlag : option bool) (w : W) : list GitCall * W :=
  if isTrue remoteFlag && truthy (remote (config self))
  then ([CRaw (remoteDeleteArgs self tagName)],
        snd (sg_raw (remoteDeleteArgs self tagName) w))
  else ([], w).

(** A repository whose remote refuses pushes. *)
Definition offlineRepo : ToyRepo :=
  {| toy_tags := toy_tags sampleRepo; toy_history := sampleLog;
     toy_since := toy_since sampleRepo; toy_status := cleanStatus;
     toy_remote_ok := false; toy_writable := true; toy_commits := [] |}.

(** A repository whose references cannot be written. *)
Definition readOnlyRepo : ToyRepo :=
  {| toy_tags := toy_tags sampleRepo; toy_history := sampleLog;
     toy_since := toy_since sampleRepo; toy_status := cleanStatus;
     toy_remote_ok := true; toy_writable := false; toy_commits := [] |}.

(** No dollar sign occurs in the string. *)
Fixpoint noDollar (s : string) : bool :=
  match s with
  | EmptyString => true
  | String c s' => negb (Ascii.eqb c "$") && noDollar s'
  end.

(** The files [commitChanges] stages. *)
Definition filesToAdd `{NodePath} (self : GitService) (context : PackageContext)
           (changelogPath : string) : list string :=
  filterBoolean [path_join (path_relative (rootDir self) (path context)) "package.json";
                 path_relative (rootDir self) changelogPath].

(** The run of [commitChanges] once the files were staged: the commit with
    message [msg] is attempted, and its failure is reported as the failure of
    the whole step. *)
Definition committed {W : Type} `{SimpleGit W} `{NodePath} (self : GitService)
           (context : PackageContext) (changelogPath msg : string)
           (s : GitState W) (w1 : W) : result unit * GitState W :=
  (match fst (sg_commit msg w1) with
   | Ok u => Ok u
   | Throw e => Throw ("Failed to commit changes: " +++ e)
   end,
   called s (snd (sg_commit msg w1))
          [CAdd (filesToAdd self context changelogPath); CCommit msg]).

Definition withCommitMessage (cfg : GitConfig) (template : string) : GitConfig :=
  {| tagPrefix := tagPrefix cfg;
     requireCleanWorkingDirectory := requireCleanWorkingDirectory cfg;
     requireUpToDate := requireUpToDate cfg;
     commit := commit cfg; push := push cfg;
     commitMessage := template;
     tag := tag cfg; tagMessage := tagMessage cfg;
     allowedBranches := allowedBranches cfg; remote := remote cfg |}.

(** A service whose template names the version twice. *)
Definition twiceService : GitService :=
  {| config := withCommitMessage sampleConfig "${version} and ${version}";
     rootDir := "/repo" |}.

(** A service under the configuration generated for the root package
    [monorepo]. *)
Definition generatedService : GitService :=
  {| config := match generateMonorepoConfig "monorepo" with
               | Ok cfg => cfg
               | Throw _ => sampleConfig
               end;
     rootDir := "/repo" |}.

(** [options?.skipUpstreamTracking] *)
Definition skipRequested (options : option ValidateStatusOptions) : option bool :=
  match options with
  | Some o => skipUpstreamTracking o
  | None => None
  end.

(** A clean checkout of the branch [feature], which tracks no upstream. *)
Definition featureRepo : ToyRepo :=
  {| toy_tags := []; toy_history := sampleLog; toy_since := [];
     toy_status := {| isClean := true; statusFiles := []; tracking := None;
                      current := Some "feature"; behind := 0 |};
     toy_remote_ok := true; toy_writable := true; toy_commits := [] |}.

(** A service that does not require an up-to-date branch and allows
    releases from [main] only. *)
Definition lenientService : GitService :=
  {| config := {| tagPrefix := ""; requireCleanWorkingDirectory := true;
                  requireUpToDate := false; commit := true; push := true;
                  commitMessage := "chore(release): release ${packageName}@${version}";
                  tag := true; tagMessage := None;
                  allowedBranches := Some ["main"]; remote := "origin" |};
     rootDir := "/repo" |}.

(** The options the validate command passes when the flag
    [--skip-upstream-tracking] is absent. *)
Definition skipNotRequested : ValidateStatusOptions :=
  {| skipUpstreamTracking := Some false; force := None; allowBranch := None |}.

(** A version segment [Number] reads exactly: decimal digits (or nothing)
    whose value is below [2^53]. *)
Definition exactSegment (seg : string) : bool :=
  allDigits seg && (digitsValue seg <? 2 ^ 53)%Z.

Definition exactVersion (v : string) : bool :=
  forallb exactSegment (split v ".").

(** The integer segments of a version string. *)
Definition segments (v : string) : list Z := map digitsValue (split v ".").

(** The segment at an index, a missing segment being [0]. *)
Definition segmentAt (l : list Z) (i : nat) : Z := nth i l 0%Z.

(** Component-wise integer comparison, in the specification's words: [la]
    is older than [lb] when, at the first index where their segments differ,
    the segment of [la] is the smaller integer. *)
Definition olderThan (la lb : list Z) : Prop :=
  exists i, (segmentAt la i < segmentAt lb i)%Z
            /\ forall j, (j < i)%nat -> segmentAt la j = segmentAt lb j.

Definition sameVersion (la lb : list Z) : Prop :=
  forall i, segmentAt la i = segmentAt lb i.

Definition tagSegments (t : string) : list Z := segments (tagVersion t).

(** A repository whose two tags of package [a] differ only beyond [2^53]. *)
Definition largeTagsRepo : ToyRepo :=
  toy_with_tags sampleRepo ["a@9007199254740992"; "a@9007199254740993"].

(** A command run from any event list only appends events, all of them
    satisfying [P], and ends with an outcome satisfying [Q]. *)
Definition runs {E A : Type} (P : E -> Prop) (Q : outcome A -> Prop)
           (m : C (list E) A) : Prop :=
  forall evs, exists tail,
      snd (m evs) = evs ++ tail /\ Forall P tail /\ Q (fst (m evs)).

Definition anyOutcome {A : Type} (r : outcome A) : Prop := True.

(** The command did not run to its end: it threw or left the process. *)
Definition notDone {A : Type} (r : outcome A) : Prop :=
  match r with Done _ => False | _ => True end.

Definition hasExited {A : Type} (r : outcome A) : Prop :=
  exists code, r = Exited code.

(** [--dry-run] together with an explicit [showChanges: false]. *)
Definition quietDryRunOptions : Release.ReleaseCommandOptions :=
  {| Release.all := None; Release.dryRun := Some true; Release.version := None;
     Release.gitPush := Some true; Release.npmPublish := Some true;
     Release.showChanges := Some false; Release.checkIntegrity := None;
     Release.gitCheck := Some true; Release.skipUpstreamTracking := None;
     Release.force := None; Release.allowBranch := None; Release.otp := None |}.





(* ================================================================== *)
(** ** Further methods of the git service *)

(** Node's [path.basename], which [hasChanges] uses. *)
Class NodeBasename : Type := {
  path_basename : string -> string
}.

(** An entry of [DiffResult.files]: a string; an object, with its [path]
    property and its [file] property when they hold a string; or anything
    else. *)
Inductive DiffFile : Type :=
| DiffString (s : string)
| DiffObject (pathProp fileProp : option string)
| DiffOther.

Module Git.

(** [diff?.files] is [None] when the diff or its [files] is missing. *)
Definition extractFilePaths (diffFiles : option (list DiffFile)) : list string :=
  match diffFiles with
  | None => []
  | Some fs =>
      filterBoolean
        (map (fun file =>
                match file with
                | DiffString s => s
                | DiffObject (Some p) _ => p
                | DiffObject None (Some f) => f
                | DiffObject None None => ""
                | DiffOther => ""
                end) fs)
  end.

Section Methods.
Context {W : Type} `{SimpleGit W} `{NodePath} `{NodeBasename}.

Definition getCurrentBranch (self : GitService) : G string :=
  status <- invoke CStatus sg_status ;;
  ret (orElse (current status) "").

(** The options of the push: tags follow, [--force] on request, and the
    upstream is set when the branch tracks none. *)
Definition pushOptions (forceFlag : option bool) (status : StatusResult) : list string :=
  ["--follow-tags"]
    ++ (if isTrue forceFlag then ["--force"] else [])
    ++ (match given (tracking status) with
        | Some _ => []
        | None => ["--set-upstream"]
        end).

Definition pushFailedMessage (remoteName branch errorMessage : string) : string :=
  "Push failed. Your branch is out of sync with remote." +++ nl +++
  "To force push, run with --force flag or manually:" +++ nl +++
  "  git push --force " +++ remoteName +++ " " +++ branch +++ nl +++ nl +++
  "Original error: " +++ errorMessage.

Definition push (self : GitService) (forceFlag : option bool) : G unit :=
  tryCatch
    (status <- invoke CStatus sg_status ;;
     match given (current status) with
     | None => throw "Not currently on any branch"
     | Some currentBranch =>
         let options := pushOptions forceFlag status in
         invoke (CPush (remote (config self)) currentBranch options)
                (sg_push (remote (config self)) currentBranch options)
     end)
    (fun errorMessage =>
       branch <- getCurrentBranch self ;;
       throw (pushFailedMessage (remote (config self)) branch errorMessage)).

Definition hasChanges (self : GitService) (packagePath : string) : G bool :=
  let relativePath := path_relative (rootDir self) packagePath in
  status <- invoke CStatus sg_status ;;
  if existsb (fun file => startsWith file relativePath) (statusFiles status)
  then ret true
  else
    lastTag <- getLastTag self (path_basename packagePath) ;;
    commits <- getCommitsSinceTag self lastTag
                 (Some {| packageName := None; packagePath := Some packagePath;
                          filterByPath := None |}) ;;
    ret (0 <? length commits)%nat.

End Methods.

End Git.

#[export] Instance ToyBasename : NodeBasename := {|
  path_basename := fun p =>
    match rev (split p "/") with
    | last :: _ => last
    | [] => p
    end
|}.

(* ================================================================== *)
(** ** Further functions of the validate command *)

Module ValidateAll.

(** The workspace service's [getPackages]: all packages for [None], the
    named ones otherwise. *)
Class Workspace : Type := {
  getPackages : option (list string) -> result (list PackageContext)
}.

Inductive Event : Type :=
| GetPackages (names : option (list string))
| Inner (e : Validate.Event).

Section Command.
Context `{Validate.Host} `{Workspace}.

(** A step of [validatePackage] seen from [validate]: its events are
    appended to those of the command. *)
Definition inner {A : Type} (m : Validate.V A) : C (list Event) A :=
  fun evs => let (r, es) := m [] in (r, evs ++ map Inner es).

(** The loop of [validate] over the packages, collecting the reports. *)
Fixpoint validateEach (pkgs : list PackageContext)
         (options : Validate.ValidateCommandOptions)
         (reports : list Validate.PackageValidationReport)
  : C (list Event) (list Validate.PackageValidationReport) :=
  match pkgs with
  | [] => cret reports
  | pkg :: rest =>
      report <~ inner (Validate.validatePackage pkg options) ;;
      validateEach rest options (reports ++ [report])
  end.

(** [validate]: the report is displayed through the logger, whose lines are
    not recorded in this part. *)
Definition validate (packages : list string) (options : Validate.ValidateCommandOptions)
  : C (list Event) unit :=
  ccatch
    (let names := if isTrue (Validate.all options) then None else Some packages in
     packagesToValidate <~ ask (GetPackages names) (getPackages names) ;;
     match packagesToValidate with
     | [] => fun evs => (Exited 1, evs)
     | _ => cret tt
     end ;;~
     reports <~ validateEach packagesToValidate options [] ;;
     if existsb Validate.hasErrors reports
     then fun evs => (Exited 1, evs)
     else cret tt)
    (fun _ evs => (Exited 1, evs)).

(** [validateChangelogs]: [None] stands for a missing argument. *)
Definition validateChangelogs (packages : option (list PackageContext))
  : Validate.V unit :=
  match packages with
  | None | Some [] => fun evs => (Raised "No packages found to validate", evs)
  | Some ps =>
      forEach ps (fun pkg =>
        if negb (truthy (path pkg))
        then fun evs => (Raised ("Invalid package path for " +++ name pkg), evs)
        else ask (Validate.ChangelogValidate (name pkg))
                 (Validate.changelogValidate (name pkg)))
  end.

End Command.

End ValidateAll.

#[export] Instance sampleWorkspace : ValidateAll.Workspace := {|
  ValidateAll.getPackages := fun names =>
    match names with
    | None => Ok [{| name := "a"; path := "/repo/packages/a";
                     currentVersion := "1.0.0"; newVersion := Some "1.0.1" |}]
    | Some ns => Ok (map (fun n => {| name := n; path := "/repo/packages/" +++ n;
                                      currentVersion := "1.0.0"; newVersion := None |}) ns)
    end
|}.

(** A directory that is not a git repository: every call fails. *)
Definition notARepository : string := "fatal: not a git repository".

#[export] Instance BrokenGit : SimpleGit unit := {|
  sg_status := fun w => (Throw notARepository, w);
  sg_fetch := fun _ w => (Throw notARepository, w);
  sg_tags := fun w => (Throw notARepository, w);
  sg_raw := fun _ w => (Throw notARepository, w);
  sg_addAnnotatedTag := fun _ _ w => (Throw notARepository, w);
  sg_add := fun _ w => (Throw notARepository, w);
  sg_commit := fun _ w => (Throw notARepository, w);
  sg_push := fun _ _ _ w => (Throw notARepository, w)
|}.

(** A repository without commits and tags. *)
Definition emptyRepo : ToyRepo :=
  {| toy_tags := []; toy_history := ""; toy_since := [];
     toy_status := cleanStatus; toy_remote_ok := true; toy_writable := true;
     toy_commits := [] |}.

Definition byPathOfA : GetCommitsOptions :=
  {| packageName := None; packagePath := Some "/repo/packages/a"; filterByPath := None |}.

(** The older commit of the sample log. *)
Definition olderCommit : GitCommit :=
  {| hash := "h1"; date := "2024-01-01"; message := "feat: one";
     body := Some "details"; files := ["packages/a/src/x.ts"] |}.

Definition toy_with_status (w : ToyRepo) (st : StatusResult) : ToyRepo :=
  {| toy_tags := toy_tags w; toy_history := toy_history w; toy_since := toy_since w;
     toy_status := st; toy_remote_ok := toy_remote_ok w;
     toy_writable := toy_writable w; toy_commits := toy_commits w |}.

(** The sample repository with an uncommitted change in package [a]. *)
Definition dirtyRepo : ToyRepo :=
  toy_with_status sampleRepo
    {| isClean := false; statusFiles := ["packages/a/index.ts"];
       tracking := Some "origin/main"; current := Some "main"; behind := 0 |}.

(** The sample repository on the branch [hotfix], three commits behind. *)
Definition behindRepo : ToyRepo :=
  toy_with_status sampleRepo
    {| isClean := true; statusFiles := [];
       tracking := Some "origin/hotfix"; current := Some "hotfix"; behind := 3 |}.

(** A clean checkout of the branch [feature], which tracks its upstream. *)
Definition trackedFeatureRepo : ToyRepo :=
  toy_with_status sampleRepo
    {| isClean := true; statusFiles := [];
       tracking := Some "origin/feature"; current := Some "feature"; behind := 0 |}.

Definition forced : ValidateStatusOptions :=
  {| skipUpstreamTracking := None; force := Some true; allowBranch := None |}.

Definition unversionedPackage : PackageContext :=
  {| name := "a"; path := "/repo/packages/a"; currentVersion := "1.0.0";
     newVersion := Some "" |}.

(** A client in whose repository the tag appears between the lookup and the
    creation: the lookup finds nothing and the creation is refused. *)
Inductive RaceWorld : Type := raceWorld.

#[export] Instance RacyGit : SimpleGit RaceWorld := {|
  sg_status := fun w => (Ok cleanStatus, w);
  sg_fetch := fun _ w => (Ok tt, w);
  sg_tags := fun w => (Ok [], w);
  sg_raw := fun _ w => (Throw "fatal: ambiguous argument: unknown revision", w);
  sg_addAnnotatedTag := fun t _ w => (Throw ("fatal: tag '" +++ t +++ "' already exists"), w);
  sg_add := fun _ w => (Ok tt, w);
  sg_commit := fun _ w => (Ok tt, w);
  sg_push := fun _ _ _ w => (Ok tt, w)
|}.

(** The sample repository with a detached HEAD. *)
Definition detachedRepo : ToyRepo :=
  toy_with_status sampleRepo
    {| isClean := true; statusFiles := []; tracking := None;
       current := None; behind := 0 |}.

(** The command never leaves the process by itself. *)
Definition neverExits {S A : Type} (m : C S A) : Prop :=
  forall s code, fst (m s) <> Exited code.


(** The calls that reach the registry. *)
Definition isRegistryCall (e : Validate.Event) : bool :=
  match e with
  | Validate.ValidateAuth | Validate.GetLatestVersion _ | Validate.Pack _ => true
  | _ => false
  end.

(** The flags as the command line gives them: set, or absent. *)
Definition fromCommandLine (flag : option bool) : Prop :=
  flag = None \/ flag = Some true.

(** A host on which the package is not published and every service
    fails. *)
Definition privateHost : Validate.Host := {|
  Validate.this_packageManager := Validate.yarn;
  Validate.getPackageConfig := fun _ =>
    Ok {| Validate.npm_publish := false; Validate.packageManager := "npm" |};
  Validate.gitValidateStatus := fun _ => Throw "not clean";
  Validate.validateAuth := Throw "No authentication configured";
  Validate.getLatestVersion := fun _ => Throw "registry unreachable";
  Validate.pack := fun _ => Throw "pack failed";
  Validate.checkWithDetails := Throw "integrity check failed";
  Validate.validateVersion := fun _ => Throw "invalid version";
  Validate.changelogValidate := fun _ => Throw "changelog missing"
|}.

(** A host whose registry already has version [1.0.0] of every package. *)
Definition publishedHost : Validate.Host := {|
  Validate.this_packageManager := Validate.npm;
  Validate.getPackageConfig := fun _ =>
    Ok {| Validate.npm_publish := true; Validate.packageManager := "npm" |};
  Validate.gitValidateStatus := fun _ => Ok tt;
  Validate.validateAuth := Ok tt;
  Validate.getLatestVersion := fun _ => Ok "1.0.0";
  Validate.pack := fun _ => Ok tt;
  Validate.checkWithDetails := Ok true;
  Validate.validateVersion := fun _ => Ok tt;
  Validate.changelogValidate := fun _ => Ok tt
|}.

(** [publisher validate --deps-report] *)
Definition depsReportFlags : Validate.ValidateCommandOptions :=
  {| Validate.all := None;
     Validate.authOnly := None; Validate.gitOnly := None; Validate.depsOnly := None;
     Validate.versionOnly := None; Validate.changelogOnly := None;
     Validate.publishOnly := None;
     Validate.skipAuth := None; Validate.skipGit := None; Validate.skipDeps := None;
     Validate.skipVersion := None; Validate.skipChangelog := None;
     Validate.skipPublish := None;
     Validate.skipUpstreamTracking := None; Validate.skipPublishCheck := None;
     Validate.skipDependencyCheck := None; Validate.validatePack := Some true;
     Validate.depsReport := Some true; Validate.depsReportJson := None |}.

Definition pathlessPackage : PackageContext :=
  {| name := "b"; path := ""; currentVersion := "0.1.0"; newVersion := None |}.

Definition packageC : PackageContext :=
  {| name := "c"; path := "/repo/packages/c"; currentVersion := "0.1.0";
     newVersion := None |}.

(** The calls by which the release command shows changes and asks for
    confirmation. *)
Definition isPreviewOrPrompt (e : Release.Event) : bool :=
  match e with
  | Release.AnalyzeChanges _ | Release.CreateDryRunPreview _ _
  | Release.PreviewChangelog _ | Release.GetGitChanges _ | Release.ConfirmRelease => true
  | _ => false
  end.

(** What the command records for the [--otp] option. *)
Definition otpEvents (o : Release.ReleaseCommandOptions) : list Release.Event :=
  match given (Release.otp o) with
  | Some code => [Release.SetOtp code]
  | None => []
  end.

Definition noPackagesError : Release.Event :=
  Release.Error "No packages to release. Use --all flag, specify package names, or run from within a package directory." "".

(** [publisher release a --show-changes] and [publisher release a]. *)
Definition showChangesOptions : Release.ReleaseCommandOptions :=
  {| Release.all := None; Release.dryRun := None; Release.version := None;
     Release.gitPush := Some true; Release.npmPublish := Some true;
     Release.showChanges := Some true; Release.checkIntegrity := None;
     Release.gitCheck := Some true; Release.skipUpstreamTracking := None;
     Release.force := None; Release.allowBranch := None; Release.otp := None |}.

Definition plainOptions : Release.ReleaseCommandOptions :=
  {| Release.all := None; Release.dryRun := None; Release.version := None;
     Release.gitPush := Some true; Release.npmPublish := Some true;
     Release.showChanges := None; Release.checkIntegrity := None;
     Release.gitCheck := Some true; Release.skipUpstreamTracking := None;
     Release.force := None; Release.allowBranch := None; Release.otp := None |}.

(** A host whose user declines the release and whose workspace has no
    current package; its configuration cannot be loaded when asked so. *)
Definition decliningHost (configLoads : bool) : Release.Host := {|
  Release.loadConfig := if configLoads then Ok tt else Throw "Configuration not found";
  Release.getChangedPackages := Ok [];
  Release.getCurrentPackage := Ok None;
  Release.analyzeChanges := fun _ => Ok [sampleChanges];
  Release.createDryRunPreview := fun _ _ => Ok sampleReport;
  Release.previewChangelog := fun _ => Ok "## [1.0.1]";
  Release.getGitChanges := fun _ => Ok ["fix: patch bug"];
  Release.confirmRelease := Ok false;
  Release.releaseAll := fun _ => Ok tt;
  Release.releasePackages := fun _ _ => Ok [];
  Release.chalk_gray := fun s => s
|}.

(** [publisher validate --changelog-only] *)
Definition changelogOnlyFlags : Validate.ValidateCommandOptions :=
  {| Validate.all := None;
     Validate.authOnly := None; Validate.gitOnly := None; Validate.depsOnly := None;
     Validate.versionOnly := None; Validate.changelogOnly := Some true;
     Validate.publishOnly := None;
     Validate.skipAuth := None; Validate.skipGit := None; Validate.skipDeps := None;
     Validate.skipVersion := None; Validate.skipChangelog := None;
     Validate.skipPublish := None;
     Validate.skipUpstreamTracking := None; Validate.skipPublishCheck := None;
     Validate.skipDependencyCheck := None; Validate.validatePack := None;
     Validate.depsReport := None; Validate.depsReportJson := None |}.

(** [r] is [s] with its first occurrence of [pat] replaced by [v], and [s]
    itself when [pat] does not occur in it. *)
Definition firstReplaced (s pat v r : string) : Prop :=
  (exists pre post,
      s = pre +++ pat +++ post
      /\ (forall pre' post',
             s = pre' +++ pat +++ post' ->
             (String.length pre <= String.length pre')%nat)
      /\ r = pre +++ v +++ post)
  \/ ((forall pre post, s <> pre +++ pat +++ post) /\ r = s).

(* ================================================================== *)
(** * Properties of the commit history reader *)

Section HistoryReader.
Context {W : Type} {git : SimpleGit W} {np : NodePath}.

Lemma getAllCommits_returns (self : GitService) (s : GitState W) :
  exists commits, fst (getAllCommits self s) = Ok commits.
Proof.
  unfold getAllCommits, tryCatch, bind, invoke, log, ret.
  destruct (sg_raw _ (world s)) as [[out | e] w']; cbn.
  - destruct (negb (truthy out)); cbn; eauto.
  - eauto.
Qed.

(** The answer of [getAllCommits] does not depend on what was logged
    before. *)
Lemma getAllCommits_logged (self : GitService) (s : GitState W) (l : LogLine) :
  fst (getAllCommits self (logged s l)) = fst (getAllCommits self s)
  /\ world (snd (getAllCommits self (logged s l))) = world (snd (getAllCommits self s))
  /\ calls (snd (getAllCommits self (logged s l))) = calls (snd (getAllCommits self s)).
Proof.
  unfold getAllCommits, tryCatch, bind, invoke, log, ret, logged; cbn.
  destruct (sg_raw _ (world s)) as [[out | e] w']; cbn.
  - destruct (negb (truthy out)); cbn; auto.
  - auto.
Qed.

(** C1.  With an empty tag argument, [getCommitsSinceTag] answers what
    [getAllCommits] answers in the same repository: the same commit
    sequence, after the same calls to the client, and as a returned value,
    not as an error, whatever the filter options are. *)
Theorem getCommitsSinceTag_without_tag
        (self : GitService) (options : option GetCommitsOptions) (s : GitState W) :
  fst (getCommitsSinceTag self "" options s) = fst (getAllCommits self s)
  /\ (exists commits, fst (getCommitsSinceTag self "" options s) = Ok commits)
  /\ world (snd (getCommitsSinceTag self "" options s)) = world (snd (getAllCommits self s))
  /\ calls (snd (getCommitsSinceTag self "" options s)) = calls (snd (getAllCommits self s)).
Proof.
  pose (l := LInfo "No previous tag found. Getting all commits instead.").
  assert (E : getCommitsSinceTag self "" options s = getAllCommits self (logged s l)).
  { destruct (getAllCommits_returns self (logged s l)) as [cs Hcs].
    unfold getCommitsSinceTag, tryCatch at 1.
    cbn [truthy String.eqb negb].
    unfold bind at 1, log at 1.
    unfold logged, l in *.
    match goal with
    | |- context [getAllCommits self ?st] => destruct (getAllCommits self st) as [r s']
    end.
    cbn in Hcs. subst r. reflexivity. }
  rewrite E.
  destruct (getAllCommits_logged self s l) as (H1 & H2 & H3).
  repeat split; auto.
  rewrite H1. apply getAllCommits_returns.
Qed.

Lemma getCommitsSinceTag_returns
      (self : GitService) (tag : string) (options : option GetCommitsOptions)
      (s : GitState W) :
  exists commits, fst (getCommitsSinceTag self tag options s) = Ok commits.
Proof.
  unfold getCommitsSinceTag, tryCatch at 1.
  match goal with
  | |- context [let (_, _) := ?m s in _] => destruct (m s) as [[cs | e] s']
  end; cbn; eauto.
Qed.

(** C2, as the code has it.  For a non-empty tag whose log call fails,
    [getCommitsSinceTag] does not raise: it logs the failure as an error
    line and returns the empty list of commits. *)
Theorem getCommitsSinceTag_failed_log
        (self : GitService) (tag : string) (options : option GetCommitsOptions)
        (s : GitState W) (out0 e : string) (w1 w2 : W) :
  truthy tag = true ->
  sg_raw ["log"; "-1"; "--oneline"] (world s) = (Ok out0, w1) ->
  sg_raw ["log"; logFormat; "--name-only"; tag +++ "..HEAD"] w1 = (Throw e, w2) ->
  getCommitsSinceTag self tag options s =
  (Ok [],
   logged (called s w2 [CRaw ["log"; "-1"; "--oneline"];
                        CRaw ["log"; logFormat; "--name-only"; tag +++ "..HEAD"]])
          (LError ("Failed to get commits since tag " +++ tag +++ ":") e)).
Proof.
  intros Ht Hv Hl.
  unfold getCommitsSinceTag, tryCatch, bind, invoke, log, ret, logged, called.
  rewrite Ht. cbn [negb world calls logs].
  rewrite Hv. cbn [world calls logs]. rewrite Hl. cbn [world calls logs].
  rewrite <- app_assoc. reflexivity.
Qed.

Lemma contains_set_add (x h : string) (acc : StringSet) :
  contains (set_add x acc) h = contains acc h || (h =? x).
Proof.
  unfold set_add, contains.
  destruct (existsb (String.eqb x) acc) eqn:E.
  - destruct (String.eqb_spec h x) as [-> | _].
    + rewrite E. reflexivity.
    + now rewrite orb_false_r.
  - rewrite existsb_app. cbn. now rewrite orb_false_r.
Qed.

(** The hash set built by one pass of the filter holds exactly the hashes
    of the commits that satisfy the predicate of the pass. *)
Lemma matched_set_has (P : GitCommit -> bool) (commits : list GitCommit)
      (acc : StringSet) (h : string) :
  set_has (fold_left (fun s c => if P c then set_add (hash c) s else s) commits acc) h
  = set_has acc h || existsb (fun c => P c && (h =? hash c)) commits.
Proof.
  revert acc. induction commits as [| c cs IH]; intros acc; cbn [fold_left existsb].
  - now rewrite orb_false_r.
  - rewrite IH. destruct (P c); cbn [andb orb].
    + unfold set_has. rewrite contains_set_add. now rewrite orb_assoc.
    + reflexivity.
Qed.

Lemma unique_hash_match (P : GitCommit -> bool) (commits : list GitCommit)
      (c : GitCommit) :
  NoDup (map hash commits) -> In c commits ->
  existsb (fun c' => P c' && (hash c =? hash c')) commits = P c.
Proof.
  induction commits as [| d ds IH]; intros Hnd Hin; [contradiction |].
  cbn in Hnd. inversion Hnd as [| ? ? Hnotin Hnd']; subst.
  cbn. destruct Hin as [-> | Hin].
  - rewrite String.eqb_refl, andb_true_r.
    destruct (P c); [reflexivity |]. cbn.
    apply not_true_is_false. intros Hex.
    apply existsb_exists in Hex. destruct Hex as (c' & Hc' & Hp).
    apply andb_prop in Hp. destruct Hp as [_ Heq].
    apply String.eqb_eq in Heq. apply Hnotin. rewrite Heq. now apply in_map.
  - rewrite (IH Hnd' Hin).
    destruct (String.eqb_spec (hash c) (hash d)) as [Heq | _].
    + exfalso. apply Hnotin. rewrite <- Heq. now apply in_map.
    + now rewrite andb_false_r.
Qed.

(** On commits with pairwise distinct hashes, the two passes over hash
    sets keep a commit exactly when (a) or (b) holds of it. *)
Lemma filterCommits_keeps (self : GitService) (options : GetCommitsOptions)
      (commits : list GitCommit) :
  NoDup (map hash commits) ->
  filterCommits self options commits = filter (keeps self options) commits.
Proof.
  intros Hnd. unfold filterCommits. apply filter_ext_in. intros c Hin.
  unfold keeps. f_equal.
  - destruct (given (packagePath options)) as [p |]; [| reflexivity].
    rewrite matched_set_has. cbn [set_has contains existsb orb].
    now rewrite (unique_hash_match _ commits c Hnd Hin).
  - destruct (given (packageName options)) as [n |]; [| reflexivity].
    rewrite matched_set_has. cbn [set_has contains existsb orb].
    now rewrite (unique_hash_match _ commits c Hnd Hin).
Qed.

(** C3, as the code has it.  For a non-empty tag whose log is read, the
    commits returned are, in log order: every parsed commit when no
    options argument is passed; and, when one is passed and the parsed
    commits have pairwise distinct hashes, exactly the parsed commits for
    which (a) a package path is given and some changed file starts with
    the package's relative path, or (b) a package name is given and the
    subject or body contains the marker.  An options argument with neither
    input therefore keeps no commit.  For the empty tag the options are
    not consulted: every parsed commit of the whole history is returned. *)
Theorem getCommitsSinceTag_filter
        (self : GitService) (options : option GetCommitsOptions) (s : GitState W) :
  (forall tag out0 out w1 w2,
      truthy tag = true ->
      sg_raw ["log"; "-1"; "--oneline"] (world s) = (Ok out0, w1) ->
      sg_raw ["log"; logFormat; "--name-only"; tag +++ "..HEAD"] w1 = (Ok out, w2) ->
      NoDup (map hash (parseLog out)) ->
      fst (getCommitsSinceTag self tag options s) =
      Ok (match options with
          | Some o => filter (keeps self o) (parseLog out)
          | None => parseLog out
          end)
      /\ fst (getCommitsSinceTag self tag (Some noFilterInputs) s) = Ok [])
  /\ (forall out w1,
        sg_raw ["log"; logFormat; "--name-only"] (world s) = (Ok out, w1) ->
        fst (getCommitsSinceTag self "" options s) = Ok (parseLog out)).
Proof.
  split.
  - intros tag out0 out w1 w2 Ht Hv Hl Hnd.
    assert (R : forall opts,
               fst (getCommitsSinceTag self tag opts s) =
               Ok (match opts with
                   | Some o => filter (keeps self o) (parseLog out)
                   | None => parseLog out
                   end)).
    { intros opts.
      unfold getCommitsSinceTag, tryCatch, bind, invoke, log, ret.
      rewrite Ht. cbn [negb world calls logs].
      rewrite Hv. cbn [world calls logs]. rewrite Hl. cbn [world calls logs].
      destruct out as [| c out'].
      - cbn. now destruct opts.
      - cbn [truthy String.eqb negb].
        destruct opts as [o |]; cbn [fst]; [| reflexivity].
        now rewrite (filterCommits_keeps self o _ Hnd). }
    split; [apply R |].
    rewrite R. f_equal.
    generalize (parseLog out) as l.
    induction l as [| c cs IH]; [reflexivity | exact IH].
  - intros out w1 Hl.
    unfold getCommitsSinceTag, getAllCommits, tryCatch, bind, invoke, log, ret.
    cbn [truthy String.eqb negb world calls logs fst snd].
    rewrite Hl. cbn [world calls logs fst snd].
    destruct out as [| c out']; reflexivity.
Qed.

End HistoryReader.

(** A log call that fails: the tag [nope] is unknown to the sample
    repository. *)
Lemma getCommitsSinceTag_failed_log_sample :
  getCommitsSinceTag sampleService "nope" None (initial sampleRepo) =
  (Ok [],
   logged (called (initial sampleRepo) sampleRepo
                  [CRaw ["log"; "-1"; "--oneline"];
                   CRaw ["log"; logFormat; "--name-only"; "nope" +++ "..HEAD"]])
          (LError ("Failed to get commits since tag " +++ "nope" +++ ":")
                  "fatal: ambiguous argument 'nope..HEAD': unknown revision")).
Proof.
  apply (getCommitsSinceTag_failed_log sampleService "nope" None (initial sampleRepo)
           "0000000 head" _ sampleRepo sampleRepo); reflexivity.
Defined.

(** C2 as stated fails: for the unknown tag [nope] the log call fails and the
    answer is the empty list, while the repository has two commits, which
    [getAllCommits] returns. *)
Lemma getCommitsSinceTag_unknown_tag_is_not_all_commits :
  (exists e w, sg_raw ["log"; logFormat; "--name-only"; "nope..HEAD"] sampleRepo
               = (Throw e, w))
  /\ fst (getCommitsSinceTag sampleService "nope" None (initial sampleRepo))
     <> fst (getAllCommits sampleService (initial sampleRepo)).
Proof.
  split.
  - eexists. eexists. reflexivity.
  - vm_compute. discriminate.
Qed.

(** The filter on the sample log, by package path. *)
Lemma getCommitsSinceTag_filter_sample :
  fst (getCommitsSinceTag sampleService "a@1.0.1" (Some byPathOfA) (initial sampleRepo))
  = Ok (filter (keeps sampleService byPathOfA) (parseLog sampleLog))
  /\ fst (getCommitsSinceTag sampleService "a@1.0.1" (Some noFilterInputs)
            (initial sampleRepo)) = Ok []
  /\ fst (getCommitsSinceTag sampleService "" (Some byPathOfA) (initial sampleRepo))
     = Ok (parseLog sampleLog).
Proof.
  destruct (getCommitsSinceTag_filter (git := ToyGit) (np := ToyPath)
              sampleService (Some byPathOfA) (initial sampleRepo)) as [Hfilter Hall].
  assert (Hnd : NoDup (map hash (parseLog sampleLog))).
  { vm_compute. repeat constructor; cbn; intuition discriminate. }
  destruct (Hfilter "a@1.0.1" "0000000 head" sampleLog sampleRepo sampleRepo
              eq_refl eq_refl eq_refl Hnd) as [Hkept Hnone].
  split; [exact Hkept | split; [exact Hnone |]].
  exact (Hall sampleLog sampleRepo eq_refl).
Defined.

(** C3 as stated fails twice.  An options argument with neither a package
    path nor a package name does not leave the commits unfiltered: every
    parsed commit is dropped.  And with the empty tag a filter by the path
    of package [a] keeps the commit that touches only package [b] and does
    not mention [a]. *)
Lemma getCommitsSinceTag_filter_not_as_stated :
  parseLog sampleLog <> []
  /\ fst (getCommitsSinceTag sampleService "a@1.0.1" (Some noFilterInputs)
            (initial sampleRepo))
     <> Ok (parseLog sampleLog)
  /\ fst (getCommitsSinceTag sampleService "" (Some byPathOfA) (initial sampleRepo))
     <> Ok (filter (keeps sampleService byPathOfA) (parseLog sampleLog)).
Proof.
  repeat split; vm_compute; discriminate.
Qed.

(* ================================================================== *)
(** * Properties of tag deletion and creation *)

Section Tags.
Context {W : Type} {git : SimpleGit W} {np : NodePath}.

Lemma checkTagExists_run (self : GitService) (tagName : string) (s : GitState W) :
  checkTagExists self tagName s =
  (Ok (match fst (sg_raw (revParseArgs tagName) (world s)) with
       | Ok _ => true
       | Throw _ => false
       end),
   called s (snd (sg_raw (revParseArgs tagName) (world s)))
          [CRaw (revParseArgs tagName)]).
Proof.
  unfold checkTagExists, tryCatch, bind, invoke, ret, called.
  fold (revParseArgs tagName).
  destruct (sg_raw (revParseArgs tagName) (world s)) as [[o | e] w']; reflexivity.
Qed.

(** What [deleteTag] does after the local tag was looked up. *)
Lemma deleteTag_run (self : GitService) (tagName : string) (remoteFlag : option bool)
      (s : GitState W) :
  deleteTag self tagName remoteFlag s =
  let w1 := snd (sg_raw (revParseArgs tagName) (world s)) in
  match fst (sg_raw (revParseArgs tagName) (world s)) with
  | Throw _ =>
      (Ok tt, called s (snd (remoteDeletion self tagName remoteFlag w1))
                     (CRaw (revParseArgs tagName)
                           :: fst (remoteDeletion self tagName remoteFlag w1)))
  | Ok _ =>
      let w2 := snd (sg_raw (tagDeleteArgs tagName) w1) in
      match fst (sg_raw (tagDeleteArgs tagName) w1) with
      | Throw e =>
          (Throw ("Failed to delete tag " +++ tagName +++ ": " +++ e),
           called s w2 [CRaw (revParseArgs tagName); CRaw (tagDeleteArgs tagName)])
      | Ok _ =>
          (Ok tt, called s (snd (remoteDeletion self tagName remoteFlag w2))
                         (CRaw (revParseArgs tagName) :: CRaw (tagDeleteArgs tagName)
                               :: fst (remoteDeletion self tagName remoteFlag w2)))
      end
  end.
Proof.
  unfold deleteTag. unfold bind at 1. rewrite checkTagExists_run.
  unfold remoteDeletion, called.
  fold (tagDeleteArgs tagName). fold (remoteDeleteArgs self tagName).
  destruct (sg_raw (revParseArgs tagName) (world s)) as [[o | e] w1]; cbn [fst snd].
  - unfold tryCatch at 1, when_ at 1, bind at 1, bind at 1, bind at 1, invoke at 1.
    cbn [world calls logs].
    destruct (sg_raw (tagDeleteArgs tagName) w1) as [[o2 | e2] w2]; cbn [fst snd].
    + unfold ret at 1. cbn [world calls logs].
      destruct (isTrue remoteFlag && truthy (remote (config self))); cbn [when_].
      * unfold tryCatch, bind, invoke, ret. cbn [world calls logs fst snd].
        destruct (sg_raw (remoteDeleteArgs self tagName) w2) as [[o3 | e3] w3];
          cbn [fst snd]; rewrite <- !app_assoc; reflexivity.
      * unfold ret. rewrite <- !app_assoc. reflexivity.
    + unfold throw. rewrite <- !app_assoc. reflexivity.
  - unfold tryCatch at 1, when_ at 1, bind at 1, ret at 1.
    destruct (isTrue remoteFlag && truthy (remote (config self))); cbn [when_].
    + unfold tryCatch, bind, invoke, ret. cbn [world calls logs fst snd].
      destruct (sg_raw (remoteDeleteArgs self tagName) w1) as [[o3 | e3] w3];
        cbn [fst snd]; rewrite <- !app_assoc; reflexivity.
    + unfold ret. reflexivity.
Qed.

(** C6.  [deleteTag] looks the local tag up first.  If there is none, no
    local deletion is attempted and the call succeeds.  If there is one
    and its deletion fails, the call raises an error carrying the cause.
    If there is one and its deletion succeeds, the call succeeds.  In both
    successful cases the remote deletion, attempted when the remote flag is
    set and a remote is configured, may fail or not: its outcome does not
    change the answer. *)
Theorem deleteTag_failures (self : GitService) (tagName : string)
        (remoteFlag : option bool) (s : GitState W) :
  (forall e w1,
      sg_raw (revParseArgs tagName) (world s) = (Throw e, w1) ->
      deleteTag self tagName remoteFlag s =
      (Ok tt, called s (snd (remoteDeletion self tagName remoteFlag w1))
                     (CRaw (revParseArgs tagName)
                           :: fst (remoteDeletion self tagName remoteFlag w1))))
  /\ (forall o w1 e w2,
        sg_raw (revParseArgs tagName) (world s) = (Ok o, w1) ->
        sg_raw (tagDeleteArgs tagName) w1 = (Throw e, w2) ->
        deleteTag self tagName remoteFlag s =
        (Throw ("Failed to delete tag " +++ tagName +++ ": " +++ e),
         called s w2 [CRaw (revParseArgs tagName); CRaw (tagDeleteArgs tagName)]))
  /\ (forall o w1 o2 w2,
        sg_raw (revParseArgs tagName) (world s) = (Ok o, w1) ->
        sg_raw (tagDeleteArgs tagName) w1 = (Ok o2, w2) ->
        deleteTag self tagName remoteFlag s =
        (Ok tt, called s (snd (remoteDeletion self tagName remoteFlag w2))
                       (CRaw (revParseArgs tagName) :: CRaw (tagDeleteArgs tagName)
                             :: fst (remoteDeletion self tagName remoteFlag w2)))).
Proof.
  repeat split; intros.
  - rewrite deleteTag_run. rewrite H. reflexivity.
  - rewrite deleteTag_run. rewrite H. cbn [fst snd]. rewrite H0. reflexivity.
  - rewrite deleteTag_run. rewrite H. cbn [fst snd]. rewrite H0. reflexivity.
Qed.

Lemma sapp_assoc (a b c : string) : (a +++ b) +++ c = a +++ b +++ c.
Proof. induction a as [| x a IH]; cbn; [reflexivity | now rewrite IH]. Qed.

Lemma stripPrefix_app (p b : string) : stripPrefix p (p +++ b) = Some b.
Proof.
  induction p as [| x p IH]; cbn; [reflexivity |].
  now rewrite Ascii.eqb_refl.
Qed.

Lemma includes_middle (a p b : string) : includes (a +++ p +++ b) p = true.
Proof.
  induction a as [| x a IH].
  - cbn [String.append]. destruct (p +++ b) eqn:E; cbn [includes];
      unfold startsWith; rewrite <- E, stripPrefix_app; reflexivity.
  - cbn [String.append includes]. rewrite IH.
    now destruct (startsWith _ p).
Qed.

(** The error of an existing tag names the two manual deletion steps. *)
Lemma alreadyExistsMessage_names_steps (tagName remoteName : string) :
  includes (alreadyExistsMessage tagName remoteName) "already exists" = true
  /\ includes (alreadyExistsMessage tagName remoteName)
              ("git tag -d " +++ tagName) = true
  /\ includes (alreadyExistsMessage tagName remoteName)
              ("git push " +++ remoteName +++ " :refs/tags/" +++ tagName) = true.
Proof.
  assert (R : forall x : string, x +++ "" = x)
    by (induction x as [| c x IH]; cbn; [reflexivity | now rewrite IH]).
  unfold alreadyExistsMessage. repeat split.
  - transitivity
      (includes
         (("Tag " +++ tagName +++ " ") +++ "already exists" +++
          (". Use --force to overwrite or manually delete the tag with:" +++
           nl +++ nl +++ "  git tag -d " +++ tagName +++ nl +++
           "  git push " +++ remoteName +++ " :refs/tags/" +++ tagName))
         "already exists");
      [| apply includes_middle].
    f_equal. rewrite !sapp_assoc. reflexivity.
  - transitivity
      (includes
         (("Tag " +++ tagName +++
           " already exists. Use --force to overwrite or manually delete the tag with:" +++
           nl +++ nl +++ "  ") +++
          ("git tag -d " +++ tagName) +++
          (nl +++ "  git push " +++ remoteName +++ " :refs/tags/" +++ tagName))
         ("git tag -d " +++ tagName));
      [| apply includes_middle].
    f_equal. rewrite !sapp_assoc. reflexivity.
  - transitivity
      (includes
         (("Tag " +++ tagName +++
           " already exists. Use --force to overwrite or manually delete the tag with:" +++
           nl +++ nl +++ "  git tag -d " +++ tagName +++ nl +++ "  ") +++
          ("git push " +++ remoteName +++ " :refs/tags/" +++ tagName) +++ "")
         ("git push " +++ remoteName +++ " :refs/tags/" +++ tagName));
      [| apply includes_middle].
    f_equal. rewrite !sapp_assoc, R. reflexivity.
Qed.

(** C5.  For a package context with a new version whose tag already
    exists: without [force], [createTag] fails with the error that says so
    and names the manual deletion steps, and the only call made to the
    client is the lookup, so no tag is created; with [force], the existing
    tag is deleted first (the local tag, then, best effort, the remote
    one) and the annotated tag is created after that. *)
Theorem createTag_existing_tag
        (self : GitService) (context : PackageContext) (forceFlag : option bool)
        (version : string) (s : GitState W) (o : string) (w1 : W) :
  given (newVersion context) = Some version ->
  sg_raw (revParseArgs (getTagName self (name context) version)) (world s) = (Ok o, w1) ->
  let tagName := getTagName self (name context) version in
  let tagMsg := orElse (tagMessage (config self)) ("Release " +++ tagName) in
  (isTrue forceFlag = false ->
   createTag self context forceFlag s =
   (Throw (alreadyExistsMessage tagName (remote (config self))),
    called s w1 [CRaw (revParseArgs tagName)])
   /\ includes (alreadyExistsMessage tagName (remote (config self)))
               ("git tag -d " +++ tagName) = true
   /\ includes (alreadyExistsMessage tagName (remote (config self)))
               ("git push " +++ remote (config self) +++ " :refs/tags/" +++ tagName)
      = true)
  /\ (isTrue forceFlag = true ->
      forall o2 w2 o3 w3 w5,
        sg_raw (revParseArgs tagName) w1 = (Ok o2, w2) ->
        sg_raw (tagDeleteArgs tagName) w2 = (Ok o3, w3) ->
        sg_addAnnotatedTag tagName tagMsg
                           (snd (remoteDeletion self tagName (Some true) w3))
        = (Ok tt, w5) ->
        createTag self context forceFlag s =
        (Ok tagName,
         called s w5 ([CRaw (revParseArgs tagName); CRaw (revParseArgs tagName);
                       CRaw (tagDeleteArgs tagName)]
                        ++ fst (remoteDeletion self tagName (Some true) w3)
                        ++ [CAddAnnotatedTag tagName tagMsg]))).
Proof.
  intros Hv Hex tagName tagMsg. fold tagName in Hex.
  unfold createTag. rewrite Hv. fold tagName. fold tagMsg.
  split.
  - intros Hf. split; [| apply alreadyExistsMessage_names_steps].
    unfold tryCatch at 1, bind at 1. rewrite checkTagExists_run, Hex.
    cbn [fst snd when_]. rewrite Hf.
    unfold bind, throw. cbn [fst snd].
    destruct (includes _ "already exists"); reflexivity.
  - intros Hf o2 w2 o3 w3 w5 H2 H3 H5.
    unfold tryCatch at 1, bind at 1. rewrite checkTagExists_run, Hex.
    cbn [fst snd when_]. rewrite Hf.
    unfold bind at 1, bind at 1. rewrite deleteTag_run.
    cbn [called world calls logs]. rewrite H2. cbn [fst snd]. rewrite H3.
    cbn [fst snd]. unfold bind, invoke, ret, called. cbn [world calls logs].
    rewrite H5. cbn [app]. rewrite <- !app_assoc. reflexivity.
Qed.

End Tags.

(** The three cases of the deletion on small repositories: no local tag
    [zzz] and an unreachable remote; an existing tag that cannot be deleted;
    an existing tag deleted although the remote is unreachable. *)
Lemma deleteTag_failures_sample :
  fst (deleteTag sampleService "zzz" (Some true) (initial offlineRepo)) = Ok tt
  /\ fst (deleteTag sampleService "a@1.0.1" (Some true) (initial readOnlyRepo))
     = Throw "Failed to delete tag a@1.0.1: error: cannot lock ref"
  /\ fst (deleteTag sampleService "a@1.0.1" (Some true) (initial offlineRepo)) = Ok tt.
Proof.
  split; [| split].
  - rewrite (proj1 (deleteTag_failures (git := ToyGit) sampleService "zzz" (Some true)
                      (initial offlineRepo))
               "fatal: ambiguous argument: unknown revision" offlineRepo eq_refl).
    reflexivity.
  - rewrite (proj1 (proj2 (deleteTag_failures (git := ToyGit) sampleService "a@1.0.1" (Some true)
                             (initial readOnlyRepo)))
               "0000000" readOnlyRepo "error: cannot lock ref" readOnlyRepo
               eq_refl eq_refl).
    reflexivity.
  - rewrite (proj2 (proj2 (deleteTag_failures (git := ToyGit) sampleService "a@1.0.1" (Some true)
                             (initial offlineRepo)))
               "0000000" offlineRepo "Deleted tag"
               (toy_with_tags offlineRepo ["a@1.0.0"; "b@0.1.0"])
               eq_refl eq_refl).
    reflexivity.
Defined.

(** The scenario of the specification: the tag [a@1.0.1] exists. *)
Lemma createTag_existing_tag_sample :
  fst (createTag sampleService samplePackage None (initial sampleRepo))
  = Throw (alreadyExistsMessage "a@1.0.1" "origin")
  /\ createTag sampleService samplePackage (Some true) (initial sampleRepo)
     = (Ok "a@1.0.1",
        called (initial sampleRepo)
               (toy_with_tags sampleRepo ["a@1.0.0"; "b@0.1.0"; "a@1.0.1"])
               [CRaw ["rev-parse"; "refs/tags/a@1.0.1"];
                CRaw ["rev-parse"; "refs/tags/a@1.0.1"];
                CRaw ["tag"; "-d"; "a@1.0.1"];
                CRaw ["push"; "origin"; ":refs/tags/a@1.0.1"];
                CAddAnnotatedTag "a@1.0.1" "Release a@1.0.1"]).
Proof.
  pose proof (createTag_existing_tag (git := ToyGit) (np := ToyPath) sampleService samplePackage None "1.0.1"
                (initial sampleRepo) "0000000" sampleRepo eq_refl eq_refl) as Hn.
  pose proof (createTag_existing_tag (git := ToyGit) (np := ToyPath) sampleService samplePackage (Some true) "1.0.1"
                (initial sampleRepo) "0000000" sampleRepo eq_refl eq_refl) as Hf.
  cbv zeta in Hn, Hf.
  split.
  - destruct Hn as [Hn _]. destruct (Hn eq_refl) as [E _]. rewrite E. reflexivity.
  - destruct Hf as [_ Hf].
    rewrite (Hf eq_refl "0000000" sampleRepo "Deleted tag"
               (toy_with_tags sampleRepo ["a@1.0.0"; "b@0.1.0"])
               (toy_with_tags sampleRepo ["a@1.0.0"; "b@0.1.0"; "a@1.0.1"])
               eq_refl eq_refl eq_refl).
    reflexivity.
Defined.

(* ================================================================== *)
(** * Properties of the release commit *)

Section Commit.
Context {W : Type} {git : SimpleGit W} {np : NodePath}.

Lemma getSubstitution_plain (matched before after repl : string) :
  noDollar repl = true -> getSubstitution matched before after repl = repl.
Proof.
  induction repl as [| c r IH]; cbn; [reflexivity |].
  intros Hd. apply andb_prop in Hd. destruct Hd as [Hc Hr].
  apply negb_true_iff in Hc. rewrite Hc. now rewrite IH.
Qed.

Lemma noDollar_app (a b : string) :
  noDollar (a +++ b) = noDollar a && noDollar b.
Proof.
  induction a as [| c a IH]; cbn; [reflexivity |].
  now rewrite IH, andb_assoc.
Qed.

(** A pattern that begins with a dollar sign is not found within a prefix
    free of dollar signs. *)
Lemma findFirst_skip (pat' pre rest : string) :
  noDollar pre = true ->
  findFirst (String "$" pat') (pre +++ rest) =
  match findFirst (String "$" pat') rest with
  | Some (b, a) => Some (pre +++ b, a)
  | None => None
  end.
Proof.
  induction pre as [| c pre IH]; intros Hd.
  - cbn [String.append]. now destruct (findFirst _ rest) as [[b a] |].
  - cbn in Hd. apply andb_prop in Hd. destruct Hd as [Hc Hr].
    apply negb_true_iff in Hc.
    cbn [String.append findFirst stripPrefix].
    rewrite Ascii.eqb_sym, Hc. rewrite (IH Hr).
    now destruct (findFirst _ rest) as [[b a] |].
Qed.

Lemma findFirst_here (pat rest : string) :
  findFirst pat (pat +++ rest) = Some (EmptyString, rest).
Proof.
  destruct (pat +++ rest) eqn:E; cbn [findFirst]; rewrite <- E, stripPrefix_app;
    reflexivity.
Qed.

(** [replace] on a text whose first placeholder follows a prefix free of
    dollar signs, with a replacement free of dollar signs. *)
Lemma replace_first (pat' pre post repl : string) :
  noDollar pre = true -> noDollar repl = true ->
  replace (pre +++ String "$" pat' +++ post) (String "$" pat') repl
  = pre +++ repl +++ post.
Proof.
  intros Hp Hr. unfold replace.
  rewrite (findFirst_skip pat' pre _ Hp), findFirst_here.
  rewrite (getSubstitution_plain _ _ _ _ Hr).
  assert (R : forall x : string, x +++ "" = x)
    by (induction x as [| c x IH]; cbn; [reflexivity | now rewrite IH]).
  now rewrite R.
Qed.

Lemma commitChanges_run (self : GitService) (context : PackageContext)
      (changelogPath version : string) (s : GitState W) (w1 : W) :
  given (newVersion context) = Some version ->
  sg_add (filesToAdd self context changelogPath) (world s) = (Ok tt, w1) ->
  commitChanges self context changelogPath s =
  committed self context changelogPath
            (replace (replace (commitMessage (config self))
                              "${packageName}" (name context))
                     "${version}" version)
            s w1.
Proof.
  intros Hv Ha. unfold commitChanges, committed. rewrite Hv.
  fold (filesToAdd self context changelogPath).
  unfold tryCatch, bind, invoke, called. cbn [world calls logs].
  rewrite Ha. cbn [world calls logs].
  match goal with
  | |- context [sg_commit ?m w1] => destruct (sg_commit m w1) as [[u | e] w2]
  end; cbn [fst snd]; unfold throw; rewrite <- !app_assoc; reflexivity.
Qed.

Lemma stripPrefix_inv (p s r : string) :
  stripPrefix p s = Some r -> s = p +++ r.
Proof.
  revert s. induction p as [| c p IH]; intros s; cbn.
  - now intros [= ->].
  - destruct s as [| d s]; [discriminate |].
    destruct (Ascii.eqb c d) eqn:E; [| discriminate].
    apply Ascii.eqb_eq in E. subst d. intros Hs. now rewrite (IH s Hs).
Qed.

(** What [findFirst] finds is the leftmost occurrence, and it finds one
    whenever there is one. *)
Lemma findFirst_leftmost (pat s : string) :
  match findFirst pat s with
  | Some (b, a) =>
      s = b +++ pat +++ a
      /\ forall pre' post',
           s = pre' +++ pat +++ post' ->
           (String.length b <= String.length pre')%nat
  | None => forall pre post, s <> pre +++ pat +++ post
  end.
Proof.
  induction s as [| c s IH].
  - cbn [findFirst]. destruct (stripPrefix pat "") as [rest |] eqn:E.
    + split; [cbn [String.append]; now apply stripPrefix_inv | cbn; intros; lia].
    + intros pre post Hs. destruct pre as [| x pre]; [| discriminate].
      cbn [String.append] in Hs. rewrite Hs, stripPrefix_app in E. discriminate.
  - cbn [findFirst]. destruct (stripPrefix pat (String c s)) as [rest |] eqn:E.
    + split; [cbn [String.append]; now apply stripPrefix_inv | cbn; intros; lia].
    + destruct (findFirst pat s) as [[b a] |].
      * destruct IH as [Hs Hmin]. split; [cbn; now rewrite <- Hs |].
        intros pre' post' Hd. destruct pre' as [| x pre'].
        -- cbn [String.append] in Hd. rewrite Hd, stripPrefix_app in E. discriminate.
        -- cbn [String.append] in Hd. injection Hd as _ Hd.
           cbn [String.length]. apply le_n_S. now apply (Hmin pre' post').
      * intros pre post Hd. destruct pre as [| x pre].
        -- cbn [String.append] in Hd. rewrite Hd, stripPrefix_app in E. discriminate.
        -- cbn [String.append] in Hd. injection Hd as _ Hd. now apply (IH pre post).
Qed.

(** [replace] with a replacement text free of dollar signs replaces the
    first occurrence of the pattern and nothing else. *)
Lemma replace_firstReplaced (s pat repl : string) :
  noDollar repl = true -> firstReplaced s pat repl (replace s pat repl).
Proof.
  intros Hr. unfold replace, firstReplaced.
  pose proof (findFirst_leftmost pat s) as Hf.
  destruct (findFirst pat s) as [[b a] |].
  - destruct Hf as [Hs Hmin]. left. exists b, a.
    now rewrite (getSubstitution_plain _ _ _ _ Hr).
  - right. now split.
Qed.

Lemma sapp_same_length (a b c d : string) :
  a +++ b = c +++ d -> String.length a = String.length c -> a = c /\ b = d.
Proof.
  revert c. induction a as [| x a IH]; intros [| y c] H Hl; cbn in *;
    try discriminate Hl.
  - now split.
  - injection H as -> H. injection Hl as Hl.
    destruct (IH c H Hl) as [-> ->]. now split.
Qed.

(** The text with the first occurrence replaced is determined. *)
Lemma firstReplaced_unique (s pat v r1 r2 : string) :
  firstReplaced s pat v r1 -> firstReplaced s pat v r2 -> r1 = r2.
Proof.
  intros [(p1 & q1 & H1 & M1 & ->) | [N1 ->]] [(p2 & q2 & H2 & M2 & ->) | [N2 ->]].
  - assert (Hl : String.length p1 = String.length p2).
    { apply Nat.le_antisymm; [now apply (M1 p2 q2) | now apply (M2 p1 q1)]. }
    rewrite H1 in H2. destruct (sapp_same_length _ _ _ _ H2 Hl) as [-> Hq].
    destruct (sapp_same_length _ _ _ _ Hq eq_refl) as [_ ->]. reflexivity.
  - now contradiction (N2 p1 q1).
  - now contradiction (N1 p2 q2).
  - reflexivity.
Qed.

Lemma sapp_length (a b : string) :
  String.length (a +++ b) = (String.length a + String.length b)%nat.
Proof. induction a as [| x a IH]; cbn; [reflexivity | now rewrite IH]. Qed.

Lemma sapp_inv_tail (a b c : string) : a +++ c = b +++ c -> a = b.
Proof.
  revert b. induction a as [| x a IH]; intros [| y b] H; cbn in H.
  - reflexivity.
  - apply (f_equal String.length) in H. cbn in H. rewrite sapp_length in H. lia.
  - apply (f_equal String.length) in H. cbn in H. rewrite sapp_length in H. lia.
  - injection H as -> H. now rewrite (IH b H).
Qed.

(** C8, where the code departs from it.  For a package context with a new
    version free of dollar signs, [commitChanges] stages the package's
    [package.json] and the changelog file and then commits.  Whatever the
    configured template, its message is the template with the first
    occurrence of [${packageName}] replaced by the name (free of dollar
    signs) and then the first occurrence of [${version}] replaced by the
    version: later occurrences stay as they are.  Under the configuration
    generated for a [package.json] named [N] the message is
    [chore(release): release <N>@<version>], which names [N] and not the
    package released, whenever the two differ. *)
Theorem commitChanges_message
        (self : GitService) (context : PackageContext)
        (changelogPath version : string) (s : GitState W) (w1 : W) :
  given (newVersion context) = Some version ->
  noDollar version = true ->
  sg_add (filesToAdd self context changelogPath) (world s) = (Ok tt, w1) ->
  (noDollar (name context) = true ->
   exists named msg,
     firstReplaced (commitMessage (config self)) "${packageName}" (name context) named
     /\ firstReplaced named "${version}" version msg
     /\ commitChanges self context changelogPath s =
        committed self context changelogPath msg s w1)
  /\ (forall N,
        noDollar N = true ->
        generateMonorepoConfig N = Ok (config self) ->
        commitChanges self context changelogPath s =
        committed self context changelogPath
                  ("chore(release): release " +++ N +++ "@" +++ version) s w1
        /\ (name context <> N ->
            "chore(release): release " +++ N +++ "@" +++ version
            <> "chore(release): release " +++ name context +++ "@" +++ version)).
Proof.
  intros Hv Hver Ha. split.
  - intros Hn.
    rewrite (commitChanges_run self context changelogPath version s w1 Hv Ha).
    eexists _, _. split; [| split; [| reflexivity]].
    + now apply replace_firstReplaced.
    + now apply replace_firstReplaced.
  - intros N HN Hg. split.
    + rewrite (commitChanges_run self context changelogPath version s w1 Hv Ha).
      f_equal.
      assert (Hc : commitMessage (config self)
                   = "chore(release): release " +++ N +++ "@${version}").
      { unfold generateMonorepoConfig in Hg.
        destruct (negb (truthy N)); [discriminate |].
        destruct (config self). inversion Hg. reflexivity. }
      rewrite Hc.
      assert (E1 : replace ("chore(release): release " +++ N +++ "@${version}")
                           "${packageName}" (name context)
                   = "chore(release): release " +++ N +++ "@${version}").
      { unfold replace.
        replace ("chore(release): release " +++ N +++ "@${version}")
          with (("chore(release): release " +++ N +++ "@") +++ "${version}")
          by (now rewrite !sapp_assoc).
        rewrite findFirst_skip; [reflexivity |].
        rewrite !noDollar_app, HN. reflexivity. }
      rewrite E1.
      replace ("chore(release): release " +++ N +++ "@${version}")
        with (("chore(release): release " +++ N +++ "@") +++ "${version}" +++ "")
        by (now rewrite !sapp_assoc).
      rewrite (replace_first "{version}" _ "" version); auto.
      * rewrite !sapp_assoc.
        assert (R : forall x : string, x +++ "" = x)
          by (induction x as [| c x IH]; cbn; [reflexivity | now rewrite IH]).
        now rewrite R.
      * rewrite !noDollar_app, HN. reflexivity.
    + intros Hdiff Heq. apply Hdiff. symmetry.
      cbn [String.append] in Heq.
      repeat match type of Heq with
             | String _ _ = String _ _ => injection Heq as Heq
             end.
      now apply (sapp_inv_tail N (name context) ("@" +++ version)).
Qed.

End Commit.

(** The release commit of package [a] at [1.0.1] under the configuration
    generated for the root package [monorepo] names [monorepo]. *)
Lemma commitChanges_message_sample :
  generateMonorepoConfig "monorepo" = Ok (config generatedService)
  /\ commitChanges generatedService samplePackage
                   "/repo/packages/a/CHANGELOG.md" (initial sampleRepo)
     = committed generatedService samplePackage "/repo/packages/a/CHANGELOG.md"
                 "chore(release): release monorepo@1.0.1"
                 (initial sampleRepo) sampleRepo
  /\ "chore(release): release monorepo@1.0.1" <> "chore(release): release a@1.0.1".
Proof.
  destruct (proj2 (commitChanges_message (git := ToyGit) (np := ToyPath)
                     generatedService samplePackage "/repo/packages/a/CHANGELOG.md"
                     "1.0.1" (initial sampleRepo) sampleRepo
                     eq_refl eq_refl eq_refl)
              "monorepo" eq_refl eq_refl) as [Hrun Hdiff].
  split; [reflexivity | split; [exact Hrun |]].
  apply Hdiff. discriminate.
Defined.

(** The two inputs evaluated.  A template that names the version twice
    has only its first [${version}] replaced; and under the configuration
    generated for the root package [monorepo], the release commit of
    package [a] names [monorepo], not [a]. *)
Lemma commitChanges_replaces_first_only :
  calls (snd (commitChanges twiceService samplePackage
                            "/repo/packages/a/CHANGELOG.md" (initial sampleRepo)))
  = [CAdd ["packages/a/package.json"; "packages/a/CHANGELOG.md"];
     CCommit "1.0.1 and ${version}"]
  /\ "1.0.1 and ${version}" <> "1.0.1 and 1.0.1"
  /\ generateMonorepoConfig "monorepo" = Ok (config generatedService)
  /\ calls (snd (commitChanges generatedService samplePackage
                               "/repo/packages/a/CHANGELOG.md" (initial sampleRepo)))
     = [CAdd ["packages/a/package.json"; "packages/a/CHANGELOG.md"];
        CCommit "chore(release): release monorepo@1.0.1"].
Proof.
  repeat split; try reflexivity; vm_compute; discriminate.
Qed.

(* ================================================================== *)
(** * Properties of the status validation *)

Section Status.
Context {W : Type} {git : SimpleGit W} {np : NodePath}.

(** C10, as the code has it.  When the working-directory check passes,
    the current branch tracks no upstream, and either
    [skipUpstreamTracking] is passed as [true], or it is not passed at all
    and [requireUpToDate] is disabled, [validateStatus] returns
    successfully at once: the status query is its only call to the client
    (nothing is fetched), and neither the behind-remote check nor the
    allowed-branches check runs, whatever the current branch is. *)
Theorem validateStatus_untracked_branch
        (self : GitService) (options : option ValidateStatusOptions)
        (s : GitState W) (status : StatusResult) (w1 : W) :
  sg_status (world s) = (Ok status, w1) ->
  requireCleanWorkingDirectory (config self) && negb (isClean status) = false ->
  given (tracking status) = None ->
  skipRequested options = Some true
  \/ (skipRequested options = None /\ requireUpToDate (config self) = false) ->
  validateStatus self options s = (Ok tt, called s w1 [CStatus]).
Proof.
  intros Hs Hclean Htr Hskip.
  unfold validateStatus, bind at 1, invoke. rewrite Hs.
  unfold bind at 1. rewrite Hclean. unfold ret at 1.
  rewrite Htr. fold (skipRequested options).
  assert (E : orElse (skipRequested options)
                     (negb (requireUpToDate (config self))) = true).
  { destruct Hskip as [-> | [-> ->]]; reflexivity. }
  rewrite E. reflexivity.
Qed.

End Status.

(** On the branch [feature], which tracks nothing and is not an allowed
    branch, with [requireUpToDate] disabled and no options passed. *)
Lemma validateStatus_untracked_branch_sample :
  validateStatus lenientService None (initial featureRepo)
  = (Ok tt, called (initial featureRepo) featureRepo [CStatus]).
Proof.
  apply (validateStatus_untracked_branch (git := ToyGit)
           lenientService None (initial featureRepo) (toy_status featureRepo)
           featureRepo eq_refl eq_refl eq_refl).
  right. split; reflexivity.
Defined.

(** C10 as stated fails: with [requireUpToDate] disabled and no upstream,
    but [skipUpstreamTracking] passed as [false] (as the validate command
    does when its flag is absent), the allowed-branches check runs and
    rejects the branch. *)
Lemma validateStatus_explicit_false_checks_branches :
  requireUpToDate (config lenientService) = false
  /\ tracking (toy_status featureRepo) = None
  /\ fst (validateStatus lenientService (Some skipNotRequested) (initial featureRepo))
     = Throw ("Current branch feature is not in allowed branches: main." +++
              nl +++ nl +++
              "To proceed anyway, you can:" +++ nl +++
              "1. Switch to an allowed branch" +++ nl +++
              "2. Run with --allow-branch to bypass branch restrictions").
Proof.
  repeat split.
Qed.

(* ================================================================== *)
(** * Properties of the tag ordering *)

Lemma isDigit_value (c : ascii) :
  isDigit c = true -> (0 <= Z.of_nat (nat_of_ascii c) - 48 <= 9)%Z.
Proof.
  unfold isDigit. intros H. apply andb_prop in H. destruct H as [H1 H2].
  apply Nat.leb_le in H1. apply Nat.leb_le in H2. lia.
Qed.

Lemma digitsValue_from_nonneg (s : string) (acc : Z) :
  allDigits s = true -> (0 <= acc)%Z -> (0 <= digitsValue_from acc s)%Z.
Proof.
  revert acc. induction s as [| c s IH]; intros acc Hd Hacc;
    cbn [digitsValue_from]; [exact Hacc |].
  cbn [allDigits] in Hd. apply andb_prop in Hd. destruct Hd as [Hc Hs].
  apply IH; [exact Hs |]. pose proof (isDigit_value c Hc). lia.
Qed.

Lemma round_double_exact (n : Z) :
  (0 <= n < 2 ^ 53)%Z -> round_double n = Fin n.
Proof.
  intros [H0 H1]. unfold round_double.
  rewrite Z.abs_eq by exact H0.
  apply Z.ltb_lt in H1. now rewrite H1.
Qed.

Lemma round_double_difference (x y : Z) :
  (0 <= x < 2 ^ 53)%Z -> (0 <= y < 2 ^ 53)%Z -> round_double (x - y) = Fin (x - y).
Proof.
  intros Hx Hy. unfold round_double.
  assert (H : (Z.abs (x - y) <? 2 ^ 53)%Z = true).
  { apply Z.ltb_lt. change (2 ^ 53)%Z with 9007199254740992%Z in *. lia. }
  now rewrite H.
Qed.

Lemma Number_exact (seg : string) :
  exactSegment seg = true ->
  Number seg = Fin (digitsValue seg) /\ (0 <= digitsValue seg < 2 ^ 53)%Z.
Proof.
  unfold exactSegment, Number. intros H. apply andb_prop in H. destruct H as [Hd Hb].
  rewrite Hd. apply Z.ltb_lt in Hb.
  assert (H0 : (0 <= digitsValue seg)%Z)
    by (apply digitsValue_from_nonneg; [exact Hd | lia]).
  split; [apply round_double_exact |]; lia.
Qed.

(** On exact segments, a part of the version read by [Number], or [0] for a
    missing one, is the integer segment at that index. *)
Lemma idx_exact (segs : list string) (i : nat) :
  forallb exactSegment segs = true ->
  idx (map Number segs) i = Fin (segmentAt (map digitsValue segs) i)
  /\ (0 <= segmentAt (map digitsValue segs) i < 2 ^ 53)%Z.
Proof.
  revert i. induction segs as [| x xs IH]; intros i Hall.
  - unfold idx, segmentAt. destruct i; cbn; split; try reflexivity; lia.
  - cbn in Hall. apply andb_prop in Hall. destruct Hall as [Hx Hxs].
    destruct i as [| i].
    + unfold idx, segmentAt. cbn.
      destruct (Number_exact x Hx) as [-> Hb]. cbn. split; [reflexivity | exact Hb].
    + unfold idx, segmentAt in *. cbn. apply IH. exact Hxs.
Qed.

Lemma segmentAt_beyond (l : list Z) (i : nat) :
  (length l <= i)%nat -> segmentAt l i = 0%Z.
Proof. intros H. unfold segmentAt. now apply nth_overflow. Qed.

(** The loop returns the difference at the first index, from [i] on and
    within its [n] iterations, at which the segments differ, and [0] when
    there is none. *)
Lemma compareLoop_exact (sa sb : list string) :
  forallb exactSegment sa = true ->
  forallb exactSegment sb = true ->
  forall n i,
  exists d,
    compareLoop (map Number sa) (map Number sb) i n = Fin d
    /\ ((d = 0%Z
         /\ forall j, (i <= j < i + n)%nat ->
                      segmentAt (map digitsValue sa) j = segmentAt (map digitsValue sb) j)
        \/ (exists k, (i <= k < i + n)%nat
                      /\ segmentAt (map digitsValue sa) k <> segmentAt (map digitsValue sb) k
                      /\ d = (segmentAt (map digitsValue sa) k
                              - segmentAt (map digitsValue sb) k)%Z
                      /\ forall j, (i <= j < k)%nat ->
                                   segmentAt (map digitsValue sa) j
                                   = segmentAt (map digitsValue sb) j)).
Proof.
  intros Ha Hb. induction n as [| n IH]; intros i.
  - exists 0%Z. split; [reflexivity |]. left. split; [reflexivity |]. intros j Hj. lia.
  - cbn [compareLoop].
    destruct (idx_exact sa i Ha) as [Ea Ba].
    destruct (idx_exact sb i Hb) as [Eb Bb].
    rewrite Ea, Eb. cbn [strictNeq jsSub].
    destruct (Z.eqb_spec (segmentAt (map digitsValue sa) i)
                         (segmentAt (map digitsValue sb) i)) as [Heq | Hne]; cbn [negb].
    + destruct (IH (S i)) as (d & Hd & Hcase). exists d. split; [exact Hd |].
      destruct Hcase as [[Hz Hall] | (k & Hk & Hdiff & Hval & Hbefore)].
      * left. split; [exact Hz |]. intros j Hj.
        destruct (Nat.eq_dec j i) as [-> | Hji]; [exact Heq | apply Hall; lia].
      * right. exists k. repeat split; try assumption; try lia.
        intros j Hj.
        destruct (Nat.eq_dec j i) as [-> | Hji]; [exact Heq | apply Hbefore; lia].
    + exists (segmentAt (map digitsValue sa) i - segmentAt (map digitsValue sb) i)%Z.
      split; [apply round_double_difference; assumption |].
      right. exists i. repeat split; try assumption; lia.
Qed.

Lemma olderThan_asymmetric (la lb : list Z) :
  olderThan la lb -> ~ olderThan lb la.
Proof.
  intros (i & Hi & Hbi) (k & Hk & Hbk).
  destruct (Nat.lt_trichotomy i k) as [Hlt | [-> | Hgt]].
  - specialize (Hbk i Hlt). lia.
  - lia.
  - specialize (Hbi k Hgt). lia.
Qed.

(** Two versions agree up to an index, or differ first somewhere below it. *)
Lemma agree_or_first_difference (la lb : list Z) (i : nat) :
  (forall j, (j < i)%nat -> segmentAt la j = segmentAt lb j)
  \/ (exists k, (k < i)%nat /\ segmentAt la k <> segmentAt lb k
                /\ forall j, (j < k)%nat -> segmentAt la j = segmentAt lb j).
Proof.
  induction i as [| i IH].
  - left. intros j Hj. lia.
  - destruct IH as [Hall | (k & Hk & Hd & Hb)].
    + destruct (Z.eq_dec (segmentAt la i) (segmentAt lb i)) as [Heq | Hne].
      * left. intros j Hj.
        destruct (Nat.eq_dec j i) as [-> | Hji]; [exact Heq | apply Hall; lia].
      * right. exists i. repeat split; [lia | exact Hne | exact Hall].
    + right. exists k. repeat split; [lia | exact Hd | exact Hb].
Qed.

Lemma olderThan_between (lx ly lz : list Z) :
  olderThan lx lz -> olderThan lx ly \/ olderThan ly lz.
Proof.
  intros (i & Hi & Hbi).
  destruct (agree_or_first_difference lx ly i) as [Hall | (k & Hk & Hd & Hb)].
  - destruct (Z_lt_le_dec (segmentAt lx i) (segmentAt ly i)) as [Hlt | Hle].
    + left. exists i. split; [exact Hlt | exact Hall].
    + right. exists i. split; [lia |].
      intros j Hj. rewrite <- (Hall j Hj). now apply Hbi.
  - destruct (Z_lt_le_dec (segmentAt lx k) (segmentAt ly k)) as [Hlt | Hle].
    + left. exists k. split; [exact Hlt | exact Hb].
    + right. exists k. split.
      * rewrite <- (Hbi k Hk). lia.
      * intros j Hj. rewrite <- (Hb j Hj). apply Hbi. lia.
Qed.

(** On exact versions the sign of [compareVersions] is the component-wise
    integer comparison. *)
Lemma compareVersions_sign (a b : string) :
  exactVersion a = true -> exactVersion b = true ->
  exists d,
    compareVersions a b = Fin d
    /\ ((d < 0)%Z <-> olderThan (segments a) (segments b))
    /\ (d = 0%Z <-> sameVersion (segments a) (segments b))
    /\ ((0 < d)%Z <-> olderThan (segments b) (segments a)).
Proof.
  intros Ha Hb. unfold compareVersions, exactVersion, segments in *.
  set (sa := split a ".") in *. set (sb := split b ".") in *.
  set (A := map digitsValue sa). set (B := map digitsValue sb).
  destruct (compareLoop_exact sa sb Ha Hb
              (Nat.max (length (map Number sa)) (length (map Number sb))) 0)
    as (d & Hd & Hcase).
  exists d. split; [exact Hd |].
  fold A B in Hcase.
  assert (Hbeyond : forall j,
             (Nat.max (length (map Number sa)) (length (map Number sb)) <= j)%nat ->
             segmentAt A j = segmentAt B j).
  { intros j Hj. rewrite !length_map in Hj.
    rewrite !segmentAt_beyond; [reflexivity | |]; unfold A, B; rewrite length_map; lia. }
  destruct Hcase as [[Hz Hall] | (k & Hk & Hdiff & Hval & Hbefore)].
  - assert (Hsame : sameVersion A B).
    { intros j.
      destruct (Nat.lt_ge_cases j
                  (Nat.max (length (map Number sa)) (length (map Number sb))))
        as [Hlt | Hge]; [apply Hall; lia | now apply Hbeyond]. }
    subst d. repeat split; try lia; try (intros _; exact Hsame).
    + intros (i & Hi & _). specialize (Hsame i). lia.
    + intros (i & Hi & _). specialize (Hsame i). lia.
  - assert (Hfirst : forall j, (j < k)%nat -> segmentAt A j = segmentAt B j)
      by (intros j Hj; apply Hbefore; lia).
    assert (Hunique : forall la lb,
               (forall j, (j < k)%nat -> segmentAt la j = segmentAt lb j) ->
               segmentAt la k <> segmentAt lb k ->
               olderThan la lb -> (segmentAt la k < segmentAt lb k)%Z).
    { intros la lb Hf Hne (i & Hi & Hbi).
      destruct (Nat.lt_trichotomy i k) as [Hlt | [-> | Hgt]].
      - specialize (Hf i Hlt). lia.
      - exact Hi.
      - specialize (Hbi k Hgt). contradiction. }
    repeat split.
    + intros Hneg. exists k. split; [lia | exact Hfirst].
    + intros Hold. apply (Hunique A B Hfirst Hdiff) in Hold. lia.
    + intros Hzero. exfalso. lia.
    + intros Hsame. exfalso. apply Hdiff. apply Hsame.
    + intros Hpos. exists k. split; [lia |].
      intros j Hj. symmetry. now apply Hfirst.
    + intros Hold.
      assert (Hlt : (segmentAt B k < segmentAt A k)%Z).
      { apply (Hunique B A); [| congruence | exact Hold].
        intros j Hj. symmetry. now apply Hfirst. }
      lia.
Qed.

Lemma sort_insert_In {A : Type} (cmp : A -> A -> jsnum) (x y : A) (l : list A) :
  In y (sort_insert cmp x l) <-> y = x \/ In y l.
Proof.
  induction l as [| z l IH]; cbn.
  - intuition.
  - destruct (isPositive (cmp x z)); cbn; rewrite ?IH; intuition.
Qed.

(** The head of the sorted array is one of its elements that no element
    goes before, provided the comparator decides a relation [after] that is
    asymmetric and splits along any third element. *)
Lemma sort_head {A : Type} (cmp : A -> A -> jsnum) (after : A -> A -> Prop)
      (l : list A) :
  (forall x y, In x l -> In y l -> (isPositive (cmp x y) = true <-> after x y)) ->
  (forall x y, after x y -> ~ after y x) ->
  (forall x y z, after x z -> after x y \/ after y z) ->
  match sort cmp l with
  | [] => l = []
  | h :: _ => In h l /\ forall y, In y l -> ~ after h y
  end.
Proof.
  intros Hcmp Hasym Hsplit. induction l as [| x l IH]; [reflexivity |].
  cbn [sort fold_right]. fold (sort cmp l).
  assert (IH' := IH (fun a b Ha Hb => Hcmp a b (or_intror Ha) (or_intror Hb))).
  clear IH.
  destruct (sort cmp l) as [| h r].
  - subst l. cbn. split; [now left |].
    intros y [<- | []] Hxx. exact (Hasym _ _ Hxx Hxx).
  - destruct IH' as [Hin Hmax]. cbn [sort_insert].
    destruct (isPositive (cmp x h)) eqn:P.
    + split; [now right |]. intros y [<- | Hy].
      * apply Hasym. apply (Hcmp x h); [now left | now right | exact P].
      * now apply Hmax.
    + split; [now left |]. intros y [<- | Hy] Hxy.
      * exact (Hasym _ _ Hxy Hxy).
      * destruct (Hsplit x h y Hxy) as [Hxh | Hhy].
        -- apply (Hcmp x h) in Hxh; [congruence | now left | now right].
        -- exact (Hmax y Hy Hhy).
Qed.

Lemma getLastTag_run {W : Type} {git : SimpleGit W} (self : GitService) (pkg : string)
      (s : GitState W) (tags : list string) (w1 : W) :
  sg_tags (world s) = (Ok tags, w1) ->
  getLastTag self pkg s =
  (Ok (match packageTagsOf pkg tags with t :: _ => t | [] => "" end),
   called s w1 [CTags]).
Proof.
  intros Ht. unfold getLastTag, bind, invoke, ret. rewrite Ht. reflexivity.
Qed.

(** C4, as the code has it.  On version strings whose dot-separated
    segments are decimal integers below [2^53], [compareVersions] returns a
    finite number whose sign is the component-wise integer comparison of
    the segments, a missing segment counting as [0].  Hence, when the
    versions of the package's tags are such strings, [getLastTag] returns
    the empty string if no tag starts with [<packageName>@], and otherwise
    a tag of the package than which no tag of the package has a greater
    version. *)
Theorem compareVersions_exact_below_2_53 :
  (forall a b : string,
      exactVersion a = true -> exactVersion b = true ->
      exists d,
        compareVersions a b = Fin d
        /\ ((d < 0)%Z <-> olderThan (segments a) (segments b))
        /\ (d = 0%Z <-> sameVersion (segments a) (segments b))
        /\ ((0 < d)%Z <-> olderThan (segments b) (segments a)))
  /\ (forall (W : Type) (git : SimpleGit W) (self : GitService) (pkg : string)
             (s : GitState W) (tags : list string) (w1 : W),
         sg_tags (world s) = (Ok tags, w1) ->
         (forall t, In t tags -> startsWith t (pkg +++ "@") = true ->
                    exactVersion (tagVersion t) = true) ->
         exists t,
           getLastTag self pkg s = (Ok t, called s w1 [CTags])
           /\ ((t = "" /\ forall t', In t' tags -> startsWith t' (pkg +++ "@") = false)
               \/ (In t tags /\ startsWith t (pkg +++ "@") = true
                   /\ forall t', In t' tags -> startsWith t' (pkg +++ "@") = true ->
                                 ~ olderThan (tagSegments t) (tagSegments t')))).
Proof.
  split; [exact compareVersions_sign |].
  intros W git self pkg s tags w1 Ht Hexact.
  rewrite (getLastTag_run self pkg s tags w1 Ht).
  eexists. split; [reflexivity |].
  unfold packageTagsOf.
  set (mine := filter (fun t => startsWith t (pkg +++ "@")) tags).
  assert (Hmine : forall t, In t mine <-> In t tags /\ startsWith t (pkg +++ "@") = true)
    by (intros t; exact (filter_In (fun t => startsWith t (pkg +++ "@")) t tags)).
  assert (Hcmp : forall x y, In x mine -> In y mine ->
                             (isPositive (compareVersions (tagVersion y) (tagVersion x)) = true
                              <-> olderThan (tagSegments x) (tagSegments y))).
  { intros x y Hx Hy. apply Hmine in Hx. apply Hmine in Hy.
    destruct (compareVersions_sign (tagVersion y) (tagVersion x))
      as (d & Hd & _ & _ & Hpos).
    - now apply Hexact.
    - now apply Hexact.
    - rewrite Hd. cbn [isPositive]. rewrite Z.ltb_lt. exact Hpos. }
  pose proof (sort_head (fun a b => compareVersions (tagVersion b) (tagVersion a))
                        (fun x y => olderThan (tagSegments x) (tagSegments y))
                        mine Hcmp
                        (fun x y => olderThan_asymmetric (tagSegments x) (tagSegments y))
                        (fun x y z => olderThan_between (tagSegments x) (tagSegments y)
                                                        (tagSegments z)))
    as Hhead.
  destruct (sort _ mine) as [| h r].
  - left. split; [reflexivity |]. intros t' Hin.
    destruct (startsWith t' (pkg +++ "@")) eqn:E; [| reflexivity].
    exfalso. assert (Hin' : In t' mine) by (apply Hmine; now split).
    rewrite Hhead in Hin'. contradiction.
  - right. destruct Hhead as [Hin Hmax].
    apply Hmine in Hin. destruct Hin as [Hin Hpre].
    repeat split; try assumption.
    intros t' Ht' Hpre'. apply Hmax. apply Hmine. now split.
Qed.

(** The ordering on two versions of different lengths, and the latest tag
    of package [a] in the sample repository. *)
Lemma compareVersions_exact_sample :
  (exists d, compareVersions "1.2.3" "1.10" = Fin d
             /\ ((d < 0)%Z <-> olderThan (segments "1.2.3") (segments "1.10")))
  /\ (exists t, fst (getLastTag sampleService "a" (initial sampleRepo)) = Ok t
                /\ In t (toy_tags sampleRepo)).
Proof.
  split.
  - destruct (proj1 compareVersions_exact_below_2_53 "1.2.3" "1.10" eq_refl eq_refl)
      as (d & Hd & Hneg & _).
    exists d. split; assumption.
  - destruct (proj2 compareVersions_exact_below_2_53 ToyRepo ToyGit sampleService "a"
                    (initial sampleRepo) (toy_tags sampleRepo) sampleRepo eq_refl)
      as (t & Hrun & Hcase).
    + intros t [<- | [<- | [<- | []]]] _; reflexivity.
    + exists t. rewrite Hrun. split; [reflexivity |].
      destruct Hcase as [[_ Hnone] | [Hin _]]; [| exact Hin].
      specialize (Hnone "a@1.0.0" (or_introl eq_refl)). discriminate Hnone.
Defined.

(** C4 as stated fails beyond [2^53]: two versions that differ as integers
    compare as equal, and [getLastTag] then returns the smaller of two
    tags. *)
Lemma compareVersions_rounds_large_segments :
  compareVersions "9007199254740993" "9007199254740992" = Fin 0
  /\ olderThan (segments "9007199254740992") (segments "9007199254740993")
  /\ fst (getLastTag sampleService "a" (initial largeTagsRepo))
     = Ok "a@9007199254740992"
  /\ olderThan (tagSegments "a@9007199254740992") (tagSegments "a@9007199254740993").
Proof.
  repeat split; try reflexivity.
  - exists 0%nat. split; [reflexivity | intros j Hj; inversion Hj].
  - exists 0%nat. split; [reflexivity | intros j Hj; inversion Hj].
Qed.

(* ================================================================== *)
(** * Reasoning about commands *)

Section CommandLogic.
Context {E : Type} (P : E -> Prop).

Lemma runs_weaken {A : Type} (Q Q' : outcome A -> Prop) (m : C (list E) A) :
  runs P Q m -> (forall r, Q r -> Q' r) -> runs P Q' m.
Proof.
  intros Hm HQ evs. destruct (Hm evs) as (tail & H1 & H2 & H3).
  exists tail. auto.
Qed.

Lemma runs_cret {A : Type} (Q : outcome A -> Prop) (a : A) :
  Q (Done a) -> runs P Q (cret a).
Proof.
  intros HQ evs. exists []. cbn. rewrite app_nil_r. auto.
Qed.

Lemma runs_emit (Q : outcome unit -> Prop) (e : E) :
  P e -> Q (Done tt) -> runs P Q (emit e).
Proof.
  intros He HQ evs. exists [e]. cbn. auto.
Qed.

Lemma runs_ask {A : Type} (e : E) (answer : result A) :
  P e -> runs P anyOutcome (ask e answer).
Proof.
  intros He evs. exists [e]. cbn. unfold anyOutcome. auto.
Qed.

(** Sequencing when the first command may end in any way. *)
Lemma runs_cbind {A B : Type} (Q : outcome B -> Prop)
      (m : C (list E) A) (k : A -> C (list E) B) :
  runs P anyOutcome m ->
  (forall a, runs P Q (k a)) ->
  (forall e, Q (Raised e)) -> (forall c, Q (Exited c)) ->
  runs P Q (cbind m k).
Proof.
  intros Hm Hk Hr He evs. unfold cbind.
  destruct (Hm evs) as (t1 & H1 & H2 & _).
  destruct (m evs) as [[a | e | c] s1]; cbn in H1; subst s1.
  - destruct (Hk a (evs ++ t1)) as (t2 & H3 & H4 & H5).
    exists (t1 ++ t2). rewrite H3, app_assoc. repeat split; auto.
    apply Forall_app. auto.
  - exists t1. cbn. auto.
  - exists t1. cbn. auto.
Qed.

(** Sequencing after a command that does not run to its end. *)
Lemma runs_cbind_stopped {A B : Type} (m : C (list E) A) (k : A -> C (list E) B) :
  runs P notDone m -> runs P notDone (cbind m k).
Proof.
  intros Hm evs. unfold cbind.
  destruct (Hm evs) as (t1 & H1 & H2 & H3).
  destruct (m evs) as [[a | e | c] s1]; cbn in *; [contradiction | |];
    exists t1; auto.
Qed.

Lemma runs_ccatch {A : Type} (Q : outcome A -> Prop)
      (m : C (list E) A) (h : string -> C (list E) A) :
  runs P anyOutcome m ->
  (forall e, runs P Q (h e)) ->
  (forall a, Q (Done a)) -> (forall c, Q (Exited c)) ->
  runs P Q (ccatch m h).
Proof.
  intros Hm Hh Hd He evs. unfold ccatch.
  destruct (Hm evs) as (t1 & H1 & H2 & _).
  destruct (m evs) as [[a | e | c] s1]; cbn in H1; subst s1.
  - exists t1. cbn. auto.
  - destruct (Hh e (evs ++ t1)) as (t2 & H3 & H4 & H5).
    exists (t1 ++ t2). rewrite H3, app_assoc. repeat split; auto.
    apply Forall_app. auto.
  - exists t1. cbn. auto.
Qed.

(** Catching around a command that does not run to its end, with a handler
    that leaves the process: the process is left. *)
Lemma runs_ccatch_stopped {A : Type} (m : C (list E) A) (h : string -> C (list E) A) :
  runs P notDone m ->
  (forall e, runs P hasExited (h e)) ->
  runs P hasExited (ccatch m h).
Proof.
  intros Hm Hh evs. unfold ccatch.
  destruct (Hm evs) as (t1 & H1 & H2 & H3).
  destruct (m evs) as [[a | e | c] s1]; cbn in *; subst s1.
  - contradiction.
  - destruct (Hh e (evs ++ t1)) as (t2 & H4 & H5 & H6).
    exists (t1 ++ t2). rewrite H4, app_assoc. repeat split; auto.
    apply Forall_app. auto.
  - exists t1. repeat split; auto. now exists c.
Qed.

Lemma runs_forEach {A : Type} (xs : list A) (f : A -> C (list E) unit) :
  (forall x, runs P anyOutcome (f x)) ->
  runs P anyOutcome (forEach xs f).
Proof.
  intros Hf. induction xs as [| x xs IH]; cbn [forEach].
  - apply runs_cret. exact I.
  - apply runs_cbind; auto; intros; exact I.
Qed.

(** Printing a line, then going on. *)
Lemma runs_after_emit {B : Type} (Q : outcome B -> Prop) (e : E)
      (k : unit -> C (list E) B) :
  P e -> runs P Q (k tt) -> runs P Q (cbind (emit e) k).
Proof.
  intros He Hk evs. unfold cbind, emit.
  destruct (Hk (evs ++ [e])) as (t & H1 & H2 & H3).
  exists (e :: t). rewrite H1, <- app_assoc. cbn. auto.
Qed.

End CommandLogic.

(* ================================================================== *)
(** * Properties of the release command in dry-run mode *)

Ltac safe_step :=
  match goal with
  | |- runs _ anyOutcome (cbind _ _) =>
      apply runs_cbind; [ | intros | intros; exact I | intros; exact I]
  | |- runs _ anyOutcome (ccatch _ _) =>
      apply runs_ccatch; [ | intros | intros; exact I | intros; exact I]
  | |- runs _ anyOutcome (emit _) => apply runs_emit; [ | exact I]
  | |- runs _ anyOutcome (ask _ _) => apply runs_ask
  | |- runs _ anyOutcome (cret _) => apply runs_cret; exact I
  | |- runs _ anyOutcome (forEach _ _) => apply runs_forEach; intros
  | |- runs _ anyOutcome (if ?b then _ else _) => destruct b
  | |- runs _ anyOutcome (match ?x with _ => _ end) => destruct x
  end.

Section DryRun.
Context {host : Release.Host}.

Lemma runs_exit {A : Type} (P : Release.Event -> Prop) (Q : outcome A -> Prop)
      (code : Z) :
  Q (Exited code) -> runs P Q (Release.exit code).
Proof.
  intros HQ evs. exists []. cbn. rewrite app_nil_r. auto.
Qed.

(** The display of one package asks for previews and prints; it never
    starts a release. *)
Lemma showDryRun_safe (o : Release.ReleaseCommandOptions) (pkg : Release.PackageChanges) :
  runs (fun e => Release.isRelease e = false) anyOutcome (Release.showDryRun o pkg).
Proof.
  unfold Release.showDryRun. repeat safe_step; reflexivity.
Qed.

Lemma showPackage_safe (pkg : Release.PackageChanges) :
  runs (fun e => Release.isRelease e = false) anyOutcome (Release.showPackage pkg).
Proof.
  unfold Release.showPackage. repeat safe_step; reflexivity.
Qed.









End DryRun.


(** With [--dry-run] and [showChanges] explicitly [false] the command goes
    on to the release entry point, handing it the dry-run flag. *)
Lemma quiet_dry_run_hands_over :
  snd (Release.action ["a"] quietDryRunOptions [])
  = [Release.LoadConfig;
     Release.ReleasePackages ["a"] (Release.releaseOptions quietDryRunOptions);
     Release.Info "Release results:";
     Release.Info "  a: 1.0.1"]
  /\ Release.ro_dryRun (Release.releaseOptions quietDryRunOptions) = Some true.
Proof. split; reflexivity. Qed.

(* ================================================================== *)
(** * Properties of the validate command *)

Section Checks.
Context {host : Validate.Host}.

(** The selection predicate alone follows the flags: with some [only] flag
    set to [true] first among those given, a check is selected exactly when
    its own [only] flag is set; with no [only] flag given, exactly when its
    [skip] flag is not set. *)
Lemma shouldValidate_selection (options : Validate.ValidateCommandOptions)
      (check : Validate.Check) :
  (Validate.onlyMode options = true ->
   Validate.shouldValidate options check = isTrue (Validate.onlyFlag options check))
  /\ (Validate.onlyMode options = false ->
      Validate.shouldValidate options check
      = negb (isTrue (Validate.skipFlag options check))).
Proof.
  unfold Validate.shouldValidate. split; intros ->; reflexivity.
Qed.

(** The factory creates a service for each package manager of the
    declared type, and refuses every other name. *)
Lemma create_declared (pm : Validate.PackageManager) :
  PackageManagerFactory.create (Validate.packageManagerName pm) = Ok tt.
Proof. now destruct pm. Qed.

Lemma create_refuses_other_names (packageManager : string) :
  packageManager <> "npm" -> packageManager <> "yarn" ->
  PackageManagerFactory.create packageManager = Throw "Unsupported package manager".
Proof.
  intros Hn Hy. unfold PackageManagerFactory.create.
  apply String.eqb_neq in Hn, Hy. now rewrite Hn, Hy.
Qed.

(** C9, at the input where the code departs from it.  With [--skip-auth]
    as the only flag, the check [auth] is not selected, and yet, for a
    package that is published, the run of [validatePackage] asks the package
    manager to validate the authentication: the check runs inside the
    "Package Manager" validation, which is entered because [publish] is
    selected. *)
Theorem validatePackage_skip_auth_still_authenticates
        (pkg : PackageContext) (cfg : Validate.ReleaseConfig) :
  Validate.getPackageConfig (name pkg) = Ok cfg ->
  Validate.npm_publish cfg = true ->
  Validate.shouldValidate skipAuthFlags Validate.auth = false
  /\ In Validate.ValidateAuth (snd (Validate.validatePackage pkg skipAuthFlags [])).
Proof.
  intros Hcfg Hpub. split; [reflexivity |].
  unfold Validate.validatePackage, Validate.pushIf, Validate.runValidation,
    Validate.validateGitStatus, Validate.validatePackageManager,
    Validate.validateDependencies, Validate.validateVersioning,
    Validate.validateChangelog.
  unfold cbind, ccatch, ask, cret, liftResult. rewrite Hcfg, create_declared, Hpub.
  cbn [skipAuthFlags Validate.shouldValidate Validate.onlyMode Validate.firstDefined
       Validate.onlyFlag Validate.skipFlag isTrue negb orb andb app
       Validate.authOnly Validate.gitOnly Validate.depsOnly Validate.versionOnly
       Validate.changelogOnly Validate.publishOnly Validate.skipAuth Validate.skipGit
       Validate.skipDeps Validate.skipVersion Validate.skipChangelog
       Validate.skipPublish Validate.skipUpstreamTracking Validate.skipPublishCheck
       Validate.skipDependencyCheck Validate.validatePack Validate.depsReport
       Validate.depsReportJson].
  destruct (Validate.gitValidateStatus false);
    destruct Validate.validateAuth as [u | m];
    [ | destruct (includes m "No authentication configured") | | destruct (includes m "No authentication configured") ];
    try (destruct (Validate.getLatestVersion (name pkg)) as [v | m'];
         [destruct (v =? currentVersion pkg)%string |]);
    destruct Validate.checkWithDetails as [[|] | m''];
    destruct (Validate.validateVersion (currentVersion pkg));
    destruct (Validate.changelogValidate (name pkg));
    cbn; tauto.
Qed.

End Checks.

(** [publisher validate --skip-auth] on the sample host. *)
Lemma validatePackage_skip_auth_sample :
  Validate.shouldValidate skipAuthFlags Validate.auth = false
  /\ In Validate.ValidateAuth
        (snd (Validate.validatePackage samplePackage skipAuthFlags [])).
Proof.
  apply (validatePackage_skip_auth_still_authenticates (host := sampleValidateHost)
           samplePackage
           {| Validate.npm_publish := true; Validate.packageManager := "npm" |});
    reflexivity.
Defined.

(** Without any flag every validation of the registry runs, in the order
    of the command, and the report has no error on the sample host. *)
Lemma validatePackage_no_flags_sample :
  map Validate.vr_name
      (match fst (Validate.validatePackage samplePackage noFlags []) with
       | Done report => Validate.validations report
       | _ => []
       end)
  = ["Git Status"; "Package Manager"; "Dependencies"; "Version Format"; "Changelog"]
  /\ snd (Validate.validatePackage samplePackage noFlags [])
     = [Validate.GetPackageConfig "a"; Validate.GitValidateStatus false;
        Validate.ValidateAuth; Validate.GetLatestVersion "a";
        Validate.CheckWithDetails; Validate.ValidateVersion "1.0.0";
        Validate.ChangelogValidate "a"].
Proof. split; reflexivity. Qed.

(* ================================================================== *)
(** * Further properties of the commit history reader *)

Section HistoryReaderMore.
Context {W : Type} {git : SimpleGit W} {np : NodePath}.

(** X1.  [getCommitsSinceTag] never raises: whatever the tag, the options
    and the answers of the git client, it returns a list of commits. *)
Theorem getCommitsSinceTag_never_raises
        (self : GitService) (tag : string) (options : option GetCommitsOptions)
        (s : GitState W) :
  exists commits, fst (getCommitsSinceTag self tag options s) = Ok commits.
Proof. apply getCommitsSinceTag_returns. Qed.

(** X2.  [getAllCommits] never raises.  When the log call fails it logs an
    error line carrying the cause and returns no commit; when the log is
    empty it logs an info line and returns no commit. *)
Theorem getAllCommits_failure_is_empty (self : GitService) (s : GitState W) :
  (exists commits, fst (getAllCommits self s) = Ok commits)
  /\ (forall e w1,
         sg_raw ["log"; logFormat; "--name-only"] (world s) = (Throw e, w1) ->
         getAllCommits self s =
         (Ok [], logged (called s w1 [CRaw ["log"; logFormat; "--name-only"]])
                        (LError "Failed to get all commits:" e)))
  /\ (forall w1,
         sg_raw ["log"; logFormat; "--name-only"] (world s) = (Ok "", w1) ->
         getAllCommits self s =
         (Ok [], logged (called s w1 [CRaw ["log"; logFormat; "--name-only"]])
                        (LInfo "No commits found in repository"))).
Proof.
  split; [apply getAllCommits_returns |].
  split; intros; unfold getAllCommits, tryCatch, bind, invoke, log, ret, logged, called;
    rewrite H; reflexivity.
Qed.

Lemma existsb_orb_split {A : Type} (f g : A -> bool) (l : list A) :
  existsb f l || existsb g l = existsb (fun x => f x || g x) l.
Proof.
  induction l as [| x l IH]; cbn; [reflexivity |].
  rewrite <- IH. destruct (f x), (g x), (existsb f l), (existsb g l); reflexivity.
Qed.

Lemma existsb_same {A : Type} (f g : A -> bool) (l : list A) :
  (forall x, f x = g x) -> existsb f l = existsb g l.
Proof.
  intros H. induction l as [| x l IH]; cbn; [reflexivity | now rewrite H, IH].
Qed.

Lemma skipn_incl {A : Type} (n : nat) (l : list A) (x : A) :
  In x (skipn n l) -> In x l.
Proof.
  revert l. induction n as [| n IH]; intros l Hx; [exact Hx |].
  destruct l as [| y l]; [exact Hx |]. right. now apply IH.
Qed.

(** X3.  For a non-empty tag whose log is read and is not empty, the
    filter matches by commit hash: when options are passed, a parsed commit
    is returned exactly when some parsed commit with the same hash
    satisfies predicate (a) or predicate (b); the commits returned keep the
    order of the log.  No assumption on the hashes is needed. *)
Theorem getCommitsSinceTag_matches_by_hash
        (self : GitService) (tag : string) (o : GetCommitsOptions)
        (s : GitState W) (out0 out : string) (w1 w2 : W) :
  truthy tag = true ->
  sg_raw ["log"; "-1"; "--oneline"] (world s) = (Ok out0, w1) ->
  sg_raw ["log"; logFormat; "--name-only"; tag +++ "..HEAD"] w1 = (Ok out, w2) ->
  truthy out = true ->
  fst (getCommitsSinceTag self tag (Some o) s) =
  Ok (filter (fun c => existsb (fun c' => keeps self o c' && (hash c =? hash c'))
                               (parseLog out))
             (parseLog out)).
Proof.
  intros Ht Hv Hl Ho.
  unfold getCommitsSinceTag, tryCatch, bind, invoke, log, ret.
  rewrite Ht. cbn [negb world calls logs].
  rewrite Hv. cbn [world calls logs]. rewrite Hl. cbn [world calls logs].
  rewrite Ho. cbn [negb fst]. f_equal.
  unfold filterCommits. apply filter_ext. intros c.
  assert (E : forall (P Q : GitCommit -> bool),
             existsb (fun c' => P c' && (hash c =? hash c')) (parseLog out)
             || existsb (fun c' => Q c' && (hash c =? hash c')) (parseLog out)
             = existsb (fun c' => (P c' || Q c') && (hash c =? hash c')) (parseLog out)).
  { intros P Q. rewrite existsb_orb_split. apply existsb_same. intros x.
    destruct (P x), (Q x), (hash c =? hash x); reflexivity. }
  unfold keeps.
  destruct (given (packagePath o)) as [p |], (given (packageName o)) as [n |];
    rewrite ?matched_set_has; cbn [set_has contains existsb orb];
    rewrite ?E; try reflexivity.
  - rewrite orb_false_r. apply existsb_same. intros x. now rewrite orb_false_r.
  - symmetry. clear E. induction (parseLog out) as [| x l IH]; [reflexivity |].
    cbn. exact IH.
Qed.

Lemma filterBoolean_truthy (xs : list string) :
  Forall (fun x => truthy x = true) (filterBoolean xs).
Proof.
  unfold filterBoolean. apply Forall_forall. intros x Hx.
  apply filter_In in Hx. tauto.
Qed.

Lemma nth_truthy (lines : list string) (k : nat) :
  Forall (fun x => truthy x = true) lines -> (k < length lines)%nat ->
  truthy (nth k lines "") = true.
Proof.
  intros Hall Hk. rewrite Forall_forall in Hall. apply Hall. now apply nth_In.
Qed.

Lemma join_truthy (x : string) (xs : list string) (sep : string) :
  truthy x = true -> truthy (join (x :: xs) sep) = true.
Proof.
  unfold join. cbn [String.concat]. intros Hx.
  destruct x as [| c x]; [discriminate |]. now destruct xs.
Qed.

(** X4.  Every commit the parser produces has a non-empty hash, date and
    subject, only non-empty file names, and a body that is absent rather
    than empty: the blank lines of the log never become fields. *)
Theorem parseLog_fields_are_not_empty (output : string) (c : GitCommit) :
  In c (parseLog output) ->
  truthy (hash c) = true /\ truthy (date c) = true /\ truthy (message c) = true
  /\ Forall (fun f => truthy f = true) (files c)
  /\ body c <> Some "".
Proof.
  unfold parseLog. generalize (filterBoolean (split output (nl +++ "COMMIT" +++ nl))).
  intros chunks. induction chunks as [| chunk rest IH]; [intros [] |].
  cbn [parseChunks]. destruct (parseChunk chunk) as [c0 |] eqn:E; [| exact IH].
  intros [<- | Hin]; [| now apply IH]. clear IH.
  unfold parseChunk in E.
  set (lines := filterBoolean (split (nth 0 (split chunk (nl +++ "FILES" +++ nl)) "") nl)) in *.
  pose proof (filterBoolean_truthy
                (split (nth 0 (split chunk (nl +++ "FILES" +++ nl)) "") nl)) as Hlines.
  fold lines in Hlines.
  set (startIndex := match lines with
                     | [] => 0%nat
                     | l0 :: _ => if (l0 =? "COMMIT")%string then 1%nat else 0%nat
                     end) in *.
  destruct (length lines <? startIndex + 3)%nat eqn:Hlen; [discriminate |].
  apply Nat.ltb_ge in Hlen. injection E as <-. cbn [hash date message files body].
  repeat split.
  - apply nth_truthy; [exact Hlines | lia].
  - apply nth_truthy; [exact Hlines | lia].
  - apply nth_truthy; [exact Hlines | lia].
  - match goal with
    | |- Forall _ (match ?x with _ => _ end) => destruct x
    end; [apply filterBoolean_truthy | constructor].
  - destruct (skipn (startIndex + 3) lines) as [| b bs] eqn:Hb; [discriminate |].
    assert (Hbt : truthy b = true).
    { rewrite Forall_forall in Hlines. apply Hlines.
      apply (skipn_incl (startIndex + 3)). rewrite Hb. now left. }
    change (0 <? length (b :: bs))%nat with true. cbv iota.
    intros Heq.
    apply (f_equal (fun o => match o with Some v => truthy v | None => true end)) in Heq.
    cbv beta iota in Heq. rewrite (join_truthy b bs nl Hbt) in Heq. discriminate.
Qed.

End HistoryReaderMore.

(** Outside a repository, and in a repository without commits. *)
Lemma getAllCommits_failure_sample :
  getAllCommits sampleService (initial tt) =
  (Ok [], logged (called (initial tt) tt [CRaw ["log"; logFormat; "--name-only"]])
                 (LError "Failed to get all commits:" notARepository))
  /\ getAllCommits sampleService (initial emptyRepo) =
     (Ok [], logged (called (initial emptyRepo) emptyRepo
                            [CRaw ["log"; logFormat; "--name-only"]])
                    (LInfo "No commits found in repository")).
Proof.
  split.
  - apply (proj1 (proj2 (getAllCommits_failure_is_empty (git := BrokenGit)
                           sampleService (initial tt)))).
    reflexivity.
  - apply (proj2 (proj2 (getAllCommits_failure_is_empty (git := ToyGit)
                           sampleService (initial emptyRepo)))).
    reflexivity.
Defined.

Lemma getCommitsSinceTag_matches_by_hash_sample :
  fst (getCommitsSinceTag sampleService "a@1.0.1" (Some byPathOfA) (initial sampleRepo))
  = Ok (filter (fun c => existsb (fun c' => keeps sampleService byPathOfA c'
                                            && (hash c =? hash c')%string)
                                 (parseLog sampleLog))
               (parseLog sampleLog)).
Proof.
  apply (getCommitsSinceTag_matches_by_hash (git := ToyGit) (np := ToyPath)
           sampleService "a@1.0.1" byPathOfA (initial sampleRepo)
           "0000000 head" sampleLog sampleRepo sampleRepo); reflexivity.
Defined.

Lemma parseLog_fields_sample :
  truthy (hash olderCommit) = true /\ truthy (date olderCommit) = true
  /\ truthy (message olderCommit) = true
  /\ Forall (fun f => truthy f = true) (files olderCommit)
  /\ body olderCommit <> Some "".
Proof.
  assert (H : In olderCommit (parseLog sampleLog)) by (vm_compute; auto).
  exact (parseLog_fields_are_not_empty sampleLog olderCommit H).
Defined.

(* ================================================================== *)
(** * Further properties of the status validation *)

Section StatusMore.
Context {W : Type} {git : SimpleGit W}.

(** X5.  With [requireCleanWorkingDirectory] set, a working directory that
    is not clean is rejected at once: the error lists the changed files and
    the status query is the only call made to the client. *)
Theorem validateStatus_dirty_working_directory
        (self : GitService) (options : option ValidateStatusOptions)
        (s : GitState W) (status : StatusResult) (w1 : W) :
  sg_status (world s) = (Ok status, w1) ->
  requireCleanWorkingDirectory (config self) = true ->
  isClean status = false ->
  validateStatus self options s =
  (Throw ("Working directory is not clean. The following files have changes:" +++
          nl +++ "- " +++ join (statusFiles status) (nl +++ "- ") +++ nl +++ nl +++
          "To proceed anyway, you can:" +++ nl +++
          "1. Commit or stash your changes" +++ nl +++
          "2. Run with --no-git-check to skip this check"),
   called s w1 [CStatus]).
Proof.
  intros Hs Hreq Hclean.
  unfold validateStatus, bind at 1, invoke. rewrite Hs.
  unfold bind at 1. rewrite Hreq, Hclean. reflexivity.
Qed.

(** X6.  When [requireUpToDate] is disabled the remote is never contacted:
    whatever the options, the status and the outcome, the status query is
    the only call [validateStatus] makes. *)
Theorem validateStatus_without_up_to_date_never_fetches
        (self : GitService) (options : option ValidateStatusOptions) (s : GitState W) :
  requireUpToDate (config self) = false ->
  calls (snd (validateStatus self options s)) = calls s ++ [CStatus].
Proof.
  intros Hup. unfold validateStatus, bind, invoke, ret, throw. rewrite Hup.
  destruct (sg_status (world s)) as [[status | e] w1]; [| reflexivity].
  cbn [calls world logs].
  destruct (requireCleanWorkingDirectory (config self) && negb (isClean status));
    [reflexivity |].
  repeat match goal with
         | |- context [if ?b then _ else _] => destruct b
         | |- context [match ?x with _ => _ end] => destruct x
         end; reflexivity.
Qed.

(** X7.  [force] overrides both the behind-remote check and the
    allowed-branches check: once the working-directory check passes, and,
    where an up-to-date branch is required, the fetch succeeds and a branch
    is checked out, [validateStatus] succeeds however far the branch is
    behind and whatever the allowed branches are. *)
Theorem validateStatus_force_overrides
        (self : GitService) (o : ValidateStatusOptions)
        (s : GitState W) (status : StatusResult) (w1 : W) :
  sg_status (world s) = (Ok status, w1) ->
  requireCleanWorkingDirectory (config self) && negb (isClean status) = false ->
  force o = Some true ->
  requireUpToDate (config self) = false
  \/ (fst (sg_fetch (remote (config self)) w1) = Ok tt
      /\ truthy (orElse (current status) "") = true) ->
  fst (validateStatus self (Some o) s) = Ok tt.
Proof.
  intros Hs Hclean Hforce Hup.
  unfold validateStatus, bind at 1, invoke. rewrite Hs.
  unfold bind at 1. rewrite Hclean. unfold ret at 1. rewrite Hforce.
  cbn [isTrue negb andb].
  match goal with
  | |- context [if ?b then ret tt else _] => destruct b; [reflexivity |]
  end.
  unfold bind, invoke, ret, throw. cbn [world calls logs].
  destruct Hup as [Hup | [Hfetch Hbranch]].
  - rewrite Hup. cbn. now destruct (allowedBranches (config self)) as [[| b bs] |].
  - destruct (requireUpToDate (config self)).
    + match goal with
      | |- context [sg_fetch ?r ?w] =>
          destruct (sg_fetch r w) as [[[] | e] w2] eqn:Hf; cbn [world] in Hf;
            rewrite Hf in Hfetch; cbn in Hfetch; [| discriminate]
      end.
      rewrite Hbranch. cbn [negb]. rewrite andb_false_r.
      destruct (given (tracking status));
        cbn; now destruct (allowedBranches (config self)) as [[| b bs] |].
    + cbn. now destruct (allowedBranches (config self)) as [[| b bs] |].
Qed.

(** X8.  On a branch that tracks an upstream, with [requireUpToDate]
    disabled and the working-directory check passed, [validateStatus]
    succeeds exactly when no branch is configured as allowed, or [force] or
    [allowBranch] is passed, or the current branch is one of the allowed
    branches. *)
Theorem validateStatus_allowed_branches
        (self : GitService) (options : option ValidateStatusOptions)
        (s : GitState W) (status : StatusResult) (w1 : W) (upstream : string) :
  sg_status (world s) = (Ok status, w1) ->
  requireCleanWorkingDirectory (config self) && negb (isClean status) = false ->
  requireUpToDate (config self) = false ->
  given (tracking status) = Some upstream ->
  (fst (validateStatus self options s) = Ok tt
   <-> match allowedBranches (config self) with
       | Some (b :: bs) =>
           isTrue (match options with Some o => force o | None => None end)
           || isTrue (match options with Some o => allowBranch o | None => None end)
           || contains (b :: bs) (orElse (current status) "")
       | _ => true
       end = true).
Proof.
  intros Hs Hclean Hup Htr.
  unfold validateStatus, bind at 1, invoke. rewrite Hs.
  unfold bind at 1. rewrite Hclean. unfold ret at 1. rewrite Htr, Hup.
  cbn [andb]. unfold bind, ret, throw. cbn [fst].
  destruct (allowedBranches (config self)) as [[| b bs] |]; cbn [fst];
    try (split; reflexivity).
  destruct (isTrue (match options with Some o => force o | None => None end));
    destruct (isTrue (match options with Some o => allowBranch o | None => None end));
    cbn [negb andb orb fst]; try (split; reflexivity).
  destruct (contains (b :: bs) (orElse (current status) "")); cbn [negb fst];
    split; intros; try reflexivity; discriminate.
Qed.

End StatusMore.

(** A dirty tree, a forced validation far behind the remote, and a branch
    that is not allowed. *)
Lemma validateStatus_dirty_sample :
  fst (validateStatus sampleService None
         (initial (toy_with_tags dirtyRepo [])))
  = Throw ("Working directory is not clean. The following files have changes:" +++
           nl +++ "- " +++ "packages/a/index.ts" +++ nl +++ nl +++
           "To proceed anyway, you can:" +++ nl +++
           "1. Commit or stash your changes" +++ nl +++
           "2. Run with --no-git-check to skip this check").
Proof.
  rewrite (validateStatus_dirty_working_directory (git := ToyGit) sampleService None
             (initial (toy_with_tags dirtyRepo [])) (toy_status dirtyRepo)
             (toy_with_tags dirtyRepo []) eq_refl eq_refl eq_refl).
  reflexivity.
Defined.

Lemma validateStatus_never_fetches_sample :
  calls (snd (validateStatus lenientService (Some skipNotRequested) (initial featureRepo)))
  = [CStatus].
Proof.
  exact (validateStatus_without_up_to_date_never_fetches (git := ToyGit)
           lenientService (Some skipNotRequested) (initial featureRepo) eq_refl).
Defined.

Lemma validateStatus_force_sample :
  fst (validateStatus sampleService (Some forced) (initial behindRepo)) = Ok tt.
Proof.
  apply (validateStatus_force_overrides (git := ToyGit) sampleService forced
           (initial behindRepo) (toy_status behindRepo) behindRepo
           eq_refl eq_refl eq_refl).
  right. split; reflexivity.
Defined.

Lemma validateStatus_allowed_branches_sample :
  fst (validateStatus lenientService None (initial trackedFeatureRepo)) = Ok tt
  <-> false = true.
Proof.
  exact (validateStatus_allowed_branches (git := ToyGit) lenientService None
           (initial trackedFeatureRepo) (toy_status trackedFeatureRepo)
           trackedFeatureRepo "origin/feature" eq_refl eq_refl eq_refl eq_refl).
Defined.

(* ================================================================== *)
(** * Further properties of tag creation and of the release commit *)

Section TagsMore.
Context {W : Type} {git : SimpleGit W} {np : NodePath}.

(** X9.  Without a new version (absent or empty) neither [createTag] nor
    [commitChanges] calls the git client: each fails at once and leaves the
    state as it was. *)
Theorem new_version_is_required
        (self : GitService) (context : PackageContext) (forceFlag : option bool)
        (changelogPath : string) (s : GitState W) :
  given (newVersion context) = None ->
  createTag self context forceFlag s = (Throw "Version is required to create a tag", s)
  /\ commitChanges self context changelogPath s
     = (Throw "New version is required to create a commit message", s).
Proof.
  intros Hv. unfold createTag, commitChanges. rewrite Hv. split; reflexivity.
Qed.

(** X10.  When no tag of the computed name exists, [createTag] deletes
    nothing, with or without [force]: after the lookup its only call is the
    creation of the annotated tag, with the configured message or
    [Release <tag>] by default, and it returns the tag name when that call
    succeeds. *)
Theorem createTag_fresh_tag
        (self : GitService) (context : PackageContext) (forceFlag : option bool)
        (version e : string) (s : GitState W) (w1 w2 : W) :
  given (newVersion context) = Some version ->
  sg_raw (revParseArgs (getTagName self (name context) version)) (world s)
  = (Throw e, w1) ->
  sg_addAnnotatedTag (getTagName self (name context) version)
                     (orElse (tagMessage (config self))
                             ("Release " +++ getTagName self (name context) version))
                     w1
  = (Ok tt, w2) ->
  createTag self context forceFlag s =
  (Ok (getTagName self (name context) version),
   called s w2
          [CRaw (revParseArgs (getTagName self (name context) version));
           CAddAnnotatedTag (getTagName self (name context) version)
                            (orElse (tagMessage (config self))
                                    ("Release " +++ getTagName self (name context) version))]).
Proof.
  intros Hv Hlookup Hadd. unfold createTag. rewrite Hv.
  unfold tryCatch at 1, bind at 1. rewrite checkTagExists_run, Hlookup.
  cbn [fst snd when_]. unfold bind, ret, invoke, called. cbn [world calls logs].
  rewrite Hadd. rewrite <- app_assoc. reflexivity.
Qed.

(** X11.  Whatever goes wrong in [createTag], an error that speaks of a tag
    that already exists is always the one that names the manual deletion
    steps: an error of the git client containing [already exists] is
    replaced by it. *)
Theorem createTag_already_exists_error
        (self : GitService) (context : PackageContext) (forceFlag : option bool)
        (version msg : string) (s : GitState W) :
  given (newVersion context) = Some version ->
  fst (createTag self context forceFlag s) = Throw msg ->
  includes msg "already exists" = true ->
  msg = alreadyExistsMessage (getTagName self (name context) version)
                             (remote (config self)).
Proof.
  intros Hv Hthrow Hincl. unfold createTag in Hthrow. rewrite Hv in Hthrow.
  unfold tryCatch in Hthrow.
  match type of Hthrow with
  | context [let (_, _) := ?m s in _] => destruct (m s) as [[t | e] s']
  end; [discriminate |].
  destruct (includes e "already exists") eqn:E; unfold throw in Hthrow;
    cbn [fst] in Hthrow; injection Hthrow as <-.
  - reflexivity.
  - rewrite E in Hincl. discriminate.
Qed.

(** X12.  When staging fails, [commitChanges] does not commit: the failure
    is reported as the failure of the commit step, with its cause, and the
    staging call is the only call made. *)
Theorem commitChanges_staging_failure
        (self : GitService) (context : PackageContext)
        (changelogPath version e : string) (s : GitState W) (w1 : W) :
  given (newVersion context) = Some version ->
  sg_add (filesToAdd self context changelogPath) (world s) = (Throw e, w1) ->
  commitChanges self context changelogPath s =
  (Throw ("Failed to commit changes: " +++ e),
   called s w1 [CAdd (filesToAdd self context changelogPath)]).
Proof.
  intros Hv Ha. unfold commitChanges. rewrite Hv.
  fold (filesToAdd self context changelogPath).
  unfold tryCatch, bind, invoke, throw, called. cbn [world calls logs].
  rewrite Ha. reflexivity.
Qed.

End TagsMore.

Lemma new_version_is_required_sample :
  createTag sampleService unversionedPackage None (initial sampleRepo)
  = (Throw "Version is required to create a tag", initial sampleRepo)
  /\ commitChanges sampleService unversionedPackage "/repo/packages/a/CHANGELOG.md"
                   (initial sampleRepo)
     = (Throw "New version is required to create a commit message", initial sampleRepo).
Proof.
  exact (new_version_is_required (git := ToyGit) (np := ToyPath) sampleService
           unversionedPackage None "/repo/packages/a/CHANGELOG.md"
           (initial sampleRepo) eq_refl).
Defined.

Lemma createTag_fresh_tag_sample :
  createTag sampleService samplePackage (Some true)
            (initial (toy_with_tags sampleRepo ["a@1.0.0"]))
  = (Ok "a@1.0.1",
     called (initial (toy_with_tags sampleRepo ["a@1.0.0"]))
            (toy_with_tags sampleRepo ["a@1.0.0"; "a@1.0.1"])
            [CRaw ["rev-parse"; "refs/tags/a@1.0.1"];
             CAddAnnotatedTag "a@1.0.1" "Release a@1.0.1"]).
Proof.
  exact (createTag_fresh_tag (git := ToyGit) (np := ToyPath) sampleService
           samplePackage (Some true) "1.0.1"
           "fatal: ambiguous argument: unknown revision"
           (initial (toy_with_tags sampleRepo ["a@1.0.0"]))
           (toy_with_tags sampleRepo ["a@1.0.0"])
           (toy_with_tags sampleRepo ["a@1.0.0"; "a@1.0.1"])
           eq_refl eq_refl eq_refl).
Defined.

(** A tag created by someone else between the lookup and the creation:
    the client's error is replaced. *)
Lemma createTag_already_exists_sample :
  "Tag a@1.0.1 already exists. Use --force to overwrite or manually delete the tag with:"
  +++ nl +++ nl +++ "  git tag -d a@1.0.1" +++ nl +++
  "  git push origin :refs/tags/a@1.0.1"
  = alreadyExistsMessage "a@1.0.1" "origin".
Proof.
  apply (createTag_already_exists_error (git := RacyGit) (np := ToyPath) sampleService
           samplePackage None "1.0.1" _ (initial raceWorld)); reflexivity.
Defined.

Lemma commitChanges_staging_failure_sample :
  commitChanges sampleService samplePackage "/repo/packages/a/CHANGELOG.md" (initial tt)
  = (Throw ("Failed to commit changes: " +++ notARepository),
     called (initial tt) tt
            [CAdd ["packages/a/package.json"; "packages/a/CHANGELOG.md"]]).
Proof.
  exact (commitChanges_staging_failure (git := BrokenGit) (np := ToyPath) sampleService
           samplePackage "/repo/packages/a/CHANGELOG.md" "1.0.1" notARepository
           (initial tt) tt eq_refl eq_refl).
Defined.

(* ================================================================== *)
(** * Properties of the push and of the change detection *)

Section PushAndChanges.
Context {W : Type} {git : SimpleGit W} {np : NodePath} {nb : NodeBasename}.

(** X13.  A push that the client accepts is one call to it, for the
    configured remote and the current branch.  Its options always contain
    [--follow-tags]; they contain [--force] exactly when force is requested
    and [--set-upstream] exactly when the branch tracks no upstream. *)
Theorem push_options
        (self : GitService) (forceFlag : option bool) (s : GitState W)
        (status : StatusResult) (branch : string) (w1 w2 : W) :
  sg_status (world s) = (Ok status, w1) ->
  given (current status) = Some branch ->
  sg_push (remote (config self)) branch (Git.pushOptions forceFlag status) w1
  = (Ok tt, w2) ->
  Git.push self forceFlag s =
  (Ok tt, called s w2 [CStatus;
                       CPush (remote (config self)) branch
                             (Git.pushOptions forceFlag status)])
  /\ In "--follow-tags" (Git.pushOptions forceFlag status)
  /\ (In "--force" (Git.pushOptions forceFlag status) <-> isTrue forceFlag = true)
  /\ (In "--set-upstream" (Git.pushOptions forceFlag status)
      <-> given (tracking status) = None).
Proof.
  intros Hs Hb Hp. split.
  - unfold Git.push, tryCatch, bind, invoke, called. rewrite Hs, Hb.
    cbn [world calls logs]. rewrite Hp. rewrite <- app_assoc. reflexivity.
  - unfold Git.pushOptions.
    destruct (isTrue forceFlag), (given (tracking status)); cbn;
      repeat split; intros; try tauto; try discriminate;
      repeat match goal with
             | H : _ \/ _ |- _ => destruct H
             end; try discriminate; try contradiction.
Qed.

(** X14.  A push that fails is reported with a recovery hint that names the
    remote and the branch and carries the original error; the branch is
    read from a second status query.  Without a current branch nothing is
    pushed at all, and the failure reported is that there is no branch. *)
Theorem push_failure_is_reported
        (self : GitService) (forceFlag : option bool) (s : GitState W)
        (status status2 : StatusResult) (w1 : W) :
  sg_status (world s) = (Ok status, w1) ->
  (forall branch e w2 w3,
      given (current status) = Some branch ->
      sg_push (remote (config self)) branch (Git.pushOptions forceFlag status) w1
      = (Throw e, w2) ->
      sg_status w2 = (Ok status2, w3) ->
      Git.push self forceFlag s =
      (Throw ("Push failed. Your branch is out of sync with remote." +++ nl +++
              "To force push, run with --force flag or manually:" +++ nl +++
              "  git push --force " +++ remote (config self) +++ " " +++
              orElse (current status2) "" +++ nl +++ nl +++
              "Original error: " +++ e),
       called s w3 [CStatus;
                    CPush (remote (config self)) branch
                          (Git.pushOptions forceFlag status);
                    CStatus]))
  /\ (forall w3,
         given (current status) = None ->
         sg_status w1 = (Ok status2, w3) ->
         Git.push self forceFlag s =
         (Throw ("Push failed. Your branch is out of sync with remote." +++ nl +++
                 "To force push, run with --force flag or manually:" +++ nl +++
                 "  git push --force " +++ remote (config self) +++ " " +++
                 orElse (current status2) "" +++ nl +++ nl +++
                 "Original error: " +++ "Not currently on any branch"),
          called s w3 [CStatus; CStatus])).
Proof.
  intros Hs. split.
  - intros branch e w2 w3 Hb Hp Hs2.
    unfold Git.push, Git.getCurrentBranch, Git.pushFailedMessage, tryCatch, bind, invoke,
      throw, ret, called.
    rewrite Hs, Hb. cbn [world calls logs]. rewrite Hp. cbn [world calls logs].
    rewrite Hs2. rewrite <- !app_assoc. reflexivity.
  - intros w3 Hb Hs2.
    unfold Git.push, Git.getCurrentBranch, Git.pushFailedMessage, tryCatch, bind, invoke,
      throw, ret, called.
    rewrite Hs, Hb. cbn [world calls logs]. rewrite Hs2.
    rewrite <- !app_assoc. reflexivity.
Qed.

(** X15.  An uncommitted change under the package's relative path settles
    [hasChanges]: it answers [true] after the status query alone, without
    reading tags or history. *)
Theorem hasChanges_uncommitted
        (self : GitService) (packagePath : string) (s : GitState W)
        (status : StatusResult) (w1 : W) :
  sg_status (world s) = (Ok status, w1) ->
  existsb (fun file => startsWith file (path_relative (rootDir self) packagePath))
          (statusFiles status) = true ->
  Git.hasChanges self packagePath s = (Ok true, called s w1 [CStatus]).
Proof.
  intros Hs Hf. unfold Git.hasChanges, bind, invoke. rewrite Hs, Hf. reflexivity.
Qed.

Lemma packageTagsOf_none (pkg : string) (tags : list string) :
  (forall t, In t tags -> startsWith t (pkg +++ "@") = false) ->
  packageTagsOf pkg tags = [].
Proof.
  intros Hnone. unfold packageTagsOf.
  assert (E : filter (fun t => startsWith t (pkg +++ "@")) tags = []).
  { induction tags as [| t ts IH]; [reflexivity |].
    cbn. rewrite (Hnone t (or_introl eq_refl)). apply IH.
    intros t' Ht'. apply Hnone. now right. }
  rewrite E. reflexivity.
Qed.

Lemma getCommitsSinceTag_empty_tag_run
      (self : GitService) (options : option GetCommitsOptions) (s : GitState W) :
  fst (getCommitsSinceTag self "" options s) = fst (getAllCommits self s).
Proof.
  destruct (getAllCommits_logged self s
              (LInfo "No previous tag found. Getting all commits instead."))
    as (H1 & _).
  rewrite <- H1.
  destruct (getAllCommits_returns self
              (logged s (LInfo "No previous tag found. Getting all commits instead.")))
    as [cs Hcs].
  unfold getCommitsSinceTag, tryCatch at 1.
  cbn [truthy String.eqb negb].
  unfold bind at 1, log at 1. unfold logged in *.
  match goal with
  | |- context [getAllCommits self ?st] => destruct (getAllCommits self st) as [r s']
  end.
  cbn in Hcs. subst r. reflexivity.
Qed.

(** X16.  For a package directory without any tag, and without uncommitted
    changes, [hasChanges] answers whether the repository has any commit at
    all: the whole history is read and the package path does not filter
    it. *)
Theorem hasChanges_without_tag_ignores_path
        (self : GitService) (packagePath : string) (s : GitState W)
        (status : StatusResult) (tags : list string) (w1 w2 : W) :
  sg_status (world s) = (Ok status, w1) ->
  existsb (fun file => startsWith file (path_relative (rootDir self) packagePath))
          (statusFiles status) = false ->
  sg_tags w1 = (Ok tags, w2) ->
  (forall t, In t tags -> startsWith t (path_basename packagePath +++ "@") = false) ->
  exists commits,
    fst (getAllCommits self (called s w2 [CStatus; CTags])) = Ok commits
    /\ fst (Git.hasChanges self packagePath s) = Ok (0 <? length commits)%nat.
Proof.
  intros Hs Hf Ht Hnone.
  destruct (getAllCommits_returns self (called s w2 [CStatus; CTags])) as [cs Hcs].
  exists cs. split; [exact Hcs |].
  unfold Git.hasChanges. unfold bind at 1, invoke at 1. rewrite Hs, Hf.
  unfold bind at 1.
  rewrite (getLastTag_run self (path_basename packagePath) _ tags w2)
    by (cbn [world]; exact Ht).
  rewrite (packageTagsOf_none _ tags Hnone).
  unfold bind, ret.
  pose proof (getCommitsSinceTag_empty_tag_run self
                (Some {| packageName := None; packagePath := Some packagePath;
                         filterByPath := None |})
                (called s w2 [CStatus; CTags])) as E.
  rewrite Hcs in E.
  unfold called in *. cbn [world calls logs] in *. rewrite <- app_assoc. cbn [app].
  match goal with
  | |- context [getCommitsSinceTag self "" ?o ?st] =>
      destruct (getCommitsSinceTag self "" o st) as [r s']
  end.
  cbn [fst] in E. subst r. reflexivity.
Qed.

End PushAndChanges.

(** X17.  [extractFilePaths] returns only non-empty paths, at most one per
    entry of the diff, and returns a list of non-empty plain strings as it
    is; a missing diff gives the empty list. *)
Theorem extractFilePaths_are_not_empty (fs : list DiffFile) (paths : list string) :
  Forall (fun p => truthy p = true) (Git.extractFilePaths (Some fs))
  /\ (length (Git.extractFilePaths (Some fs)) <= length fs)%nat
  /\ (Forall (fun p => truthy p = true) paths ->
      Git.extractFilePaths (Some (map DiffString paths)) = paths)
  /\ Git.extractFilePaths None = [].
Proof.
  unfold Git.extractFilePaths. repeat split.
  - apply filterBoolean_truthy.
  - unfold filterBoolean. etransitivity; [apply filter_length_le |].
    now rewrite length_map.
  - intros Hall. rewrite map_map. rewrite map_id. unfold filterBoolean.
    induction Hall as [| p ps Hp _ IH]; [reflexivity |].
    cbn. now rewrite Hp, IH.
Qed.

Lemma push_options_sample :
  Git.push sampleService (Some true) (initial featureRepo)
  = (Ok tt, called (initial featureRepo) featureRepo
                   [CStatus;
                    CPush "origin" "feature" ["--follow-tags"; "--force"; "--set-upstream"]]).
Proof.
  exact (proj1 (push_options (git := ToyGit) sampleService (Some true)
                  (initial featureRepo) (toy_status featureRepo) "feature"
                  featureRepo featureRepo eq_refl eq_refl eq_refl)).
Defined.

Lemma push_failure_sample :
  fst (Git.push sampleService None (initial offlineRepo))
  = Throw ("Push failed. Your branch is out of sync with remote." +++ nl +++
           "To force push, run with --force flag or manually:" +++ nl +++
           "  git push --force origin main" +++ nl +++ nl +++
           "Original error: fatal: unable to access remote")
  /\ Git.push sampleService None (initial detachedRepo)
     = (Throw ("Push failed. Your branch is out of sync with remote." +++ nl +++
               "To force push, run with --force flag or manually:" +++ nl +++
               "  git push --force origin " +++ nl +++ nl +++
               "Original error: Not currently on any branch"),
        called (initial detachedRepo) detachedRepo [CStatus; CStatus]).
Proof.
  split.
  - rewrite (proj1 (push_failure_is_reported (git := ToyGit) sampleService None
                      (initial offlineRepo) (toy_status offlineRepo)
                      (toy_status offlineRepo) offlineRepo eq_refl)
               "main" "fatal: unable to access remote" offlineRepo offlineRepo
               eq_refl eq_refl eq_refl).
    reflexivity.
  - rewrite (proj2 (push_failure_is_reported (git := ToyGit) sampleService None
                      (initial detachedRepo) (toy_status detachedRepo)
                      (toy_status detachedRepo) detachedRepo eq_refl)
               detachedRepo eq_refl eq_refl).
    reflexivity.
Defined.

Lemma hasChanges_uncommitted_sample :
  Git.hasChanges sampleService "/repo/packages/a" (initial dirtyRepo)
  = (Ok true, called (initial dirtyRepo) dirtyRepo [CStatus]).
Proof.
  exact (hasChanges_uncommitted (git := ToyGit) (np := ToyPath) (nb := ToyBasename)
           sampleService "/repo/packages/a" (initial dirtyRepo)
           (toy_status dirtyRepo) dirtyRepo eq_refl eq_refl).
Defined.

(** Package [c] has no tag, and no commit of the sample log touches it. *)
Lemma hasChanges_without_tag_sample :
  exists commits,
    fst (getAllCommits sampleService
                       (called (initial sampleRepo) sampleRepo [CStatus; CTags]))
    = Ok commits
    /\ fst (Git.hasChanges sampleService "/repo/packages/c" (initial sampleRepo))
       = Ok (0 <? length commits)%nat.
Proof.
  apply (hasChanges_without_tag_ignores_path (git := ToyGit) (np := ToyPath)
           (nb := ToyBasename) sampleService "/repo/packages/c" (initial sampleRepo)
           (toy_status sampleRepo) (toy_tags sampleRepo) sampleRepo sampleRepo
           eq_refl eq_refl eq_refl).
  intros t [<- | [<- | [<- | []]]]; reflexivity.
Defined.

Lemma hasChanges_without_tag_sample_value :
  fst (Git.hasChanges sampleService "/repo/packages/c" (initial sampleRepo)) = Ok true
  /\ filter (touchesPath "packages/c") (parseLog sampleLog) = [].
Proof. split; reflexivity. Qed.

Lemma extractFilePaths_sample :
  Git.extractFilePaths
    (Some [DiffString "a.ts"; DiffObject (Some "b.ts") (Some "c.ts");
           DiffObject None (Some "d.ts"); DiffObject None None; DiffOther;
           DiffString ""])
  = ["a.ts"; "b.ts"; "d.ts"]
  /\ Git.extractFilePaths (Some (map DiffString ["a.ts"; "b.ts"])) = ["a.ts"; "b.ts"].
Proof.
  split; [reflexivity |].
  apply (proj1 (proj2 (proj2 (extractFilePaths_are_not_empty [] ["a.ts"; "b.ts"])))).
  repeat constructor.
Defined.

(* ================================================================== *)
(** * Further properties of the validate command *)

(** Case analysis on the answers a computation inspects, innermost first. *)
Ltac split_cases :=
  repeat match goal with
         | |- context [match ?x with _ => _ end] =>
             lazymatch x with
             | context [match _ with _ => _ end] => fail
             | _ => destruct x
             end
         end.

Section ChecksMore.
Context {host : Validate.Host}.

Lemma validateGitStatus_never_exits (options : Validate.ValidateCommandOptions) :
  neverExits (Validate.validateGitStatus options).
Proof.
  intros s c. unfold Validate.validateGitStatus, ask. split_cases; cbn; discriminate.
Qed.

Lemma validatePackageManager_never_exits
      (cfg : Validate.ReleaseConfig) (pkg : PackageContext)
      (options : Validate.ValidateCommandOptions) :
  neverExits (Validate.validatePackageManager cfg pkg options).
Proof.
  intros s c. unfold Validate.validatePackageManager, cbind, ccatch, ask, cret.
  split_cases; cbn; discriminate.
Qed.

Lemma validateDependencies_never_exits (options : Validate.ValidateCommandOptions) :
  neverExits (Validate.validateDependencies options).
Proof.
  intros s c. unfold Validate.validateDependencies, cbind, ccatch, ask, cret.
  split_cases; cbn; discriminate.
Qed.

Lemma validateVersioning_never_exits (pkg : PackageContext) :
  neverExits (Validate.validateVersioning pkg).
Proof.
  intros s c. unfold Validate.validateVersioning, ask. split_cases; cbn; discriminate.
Qed.

Lemma validateChangelog_never_exits (pkg : PackageContext) :
  neverExits (Validate.validateChangelog pkg).
Proof.
  intros s c. unfold Validate.validateChangelog, ask. split_cases; cbn; discriminate.
Qed.

(** A validation that fails is recorded, not raised. *)
Lemma pushIf_done (cond : bool) (vname : string) (fn : Validate.V unit)
      (acc : list Validate.ValidationResult) (evs : list Validate.Event) :
  neverExits fn ->
  exists acc',
    fst (Validate.pushIf cond vname fn acc evs) = Done acc'
    /\ map Validate.vr_name acc'
       = map Validate.vr_name acc ++ (if cond then [vname] else []).
Proof.
  intros Hfn. unfold Validate.pushIf. destruct cond.
  - unfold Validate.runValidation, ccatch, cbind, cret.
    specialize (Hfn evs). destruct (fn evs) as [[[] | e | c] s']; cbn in *.
    + eexists. split; [reflexivity |]. now rewrite map_app.
    + eexists. split; [reflexivity |]. now rewrite map_app.
    + exfalso. now apply (Hfn c).
  - exists acc. cbn. now rewrite app_nil_r.
Qed.

(** One step per validation of [validatePackage]: each [pushIf] ends
    normally and records at most its own entry. *)
Ltac push_steps :=
  repeat match goal with
         | |- context [cbind (Validate.pushIf ?c ?n ?fn ?acc) ?k ?st] =>
             let acc' := fresh "acc" in
             let E := fresh "E" in
             let N := fresh "N" in
             let r := fresh "r" in
             let st' := fresh "st" in
             unfold cbind at 1;
             destruct (pushIf_done c n fn acc st) as (acc' & E & N);
             [ first [ apply validateGitStatus_never_exits
                     | apply validatePackageManager_never_exits
                     | apply validateDependencies_never_exits
                     | apply validateVersioning_never_exits
                     | apply validateChangelog_never_exits ]
             | destruct (Validate.pushIf c n fn acc st) as [r st'];
               cbn [fst] in E; subst r ]
         end.

Lemma validatePackage_done
      (pkg : PackageContext) (options : Validate.ValidateCommandOptions)
      (cfg : Validate.ReleaseConfig) (evs : list Validate.Event) :
  Validate.getPackageConfig (name pkg) = Ok cfg ->
  exists report, fst (Validate.validatePackage pkg options evs) = Done report.
Proof.
  intros Hcfg. unfold Validate.validatePackage.
  unfold cbind at 1, ask at 1. rewrite Hcfg.
  unfold cbind at 1, liftResult. rewrite create_declared.
  push_steps. eexists. reflexivity.
Qed.


(** X19.  In report mode ([depsReport]) the dependency validation never
    fails, whatever the integrity service answers, be it issues of severity
    error or an exception. *)
Theorem validateDependencies_report_mode_never_fails
        (options : Validate.ValidateCommandOptions) (evs : list Validate.Event) :
  Validate.depsReport options = Some true ->
  fst (Validate.validateDependencies options evs) = Done tt.
Proof.
  intros Hrep. unfold Validate.validateDependencies, cbind, ccatch, ask, cret.
  rewrite Hrep. cbn [isTrue negb andb].
  split_cases; reflexivity.
Qed.

(** X21.  A version that is already the latest in the registry is rejected
    before any packing: after a successful authentication, and unless the
    publish check is skipped, the Package Manager validation fails with the
    request to increment the version, and [pack] is not called even when
    pack validation is requested. *)
Theorem validatePackageManager_rejects_published_version
        (cfg : Validate.ReleaseConfig) (pkg : PackageContext)
        (options : Validate.ValidateCommandOptions) (evs : list Validate.Event) :
  Validate.npm_publish cfg = true ->
  Validate.validateAuth = Ok tt ->
  isTrue (Validate.skipPublishCheck options) = false ->
  Validate.getLatestVersion (name pkg) = Ok (currentVersion pkg) ->
  Validate.validatePackageManager cfg pkg options evs =
  (Raised ("Version " +++ currentVersion pkg +++ " already exists in registry. " +++
           "Please increment the version number before publishing."),
   evs ++ [Validate.ValidateAuth; Validate.GetLatestVersion (name pkg)]).
Proof.
  intros Hpub Hauth Hskip Hlatest.
  unfold Validate.validatePackageManager, cbind, ccatch, ask, cret.
  rewrite Hpub, Hauth, Hskip, Hlatest. cbn [negb].
  rewrite String.eqb_refl. now rewrite <- app_assoc.
Qed.

(** X24.  With flags as the command line gives them (set or absent), the
    command is in only-mode exactly when some [only] flag is set. *)
Theorem onlyMode_from_command_line (options : Validate.ValidateCommandOptions) :
  (forall check, fromCommandLine (Validate.onlyFlag options check)) ->
  (Validate.onlyMode options = true
   <-> exists check, Validate.onlyFlag options check = Some true).
Proof.
  intros Hcli. unfold Validate.onlyMode.
  pose proof (Hcli Validate.auth) as Ha. pose proof (Hcli Validate.git) as Hg.
  pose proof (Hcli Validate.deps) as Hd. pose proof (Hcli Validate.version) as Hv.
  pose proof (Hcli Validate.changelog) as Hc. pose proof (Hcli Validate.publish) as Hp.
  cbn [Validate.onlyFlag] in *. unfold fromCommandLine in *.
  split.
  - intros Hmode.
    destruct Ha as [Ha | Ha]; [| now exists Validate.auth].
    destruct Hg as [Hg | Hg]; [| now exists Validate.git].
    destruct Hd as [Hd | Hd]; [| now exists Validate.deps].
    destruct Hv as [Hv | Hv]; [| now exists Validate.version].
    destruct Hc as [Hc | Hc]; [| now exists Validate.changelog].
    destruct Hp as [Hp | Hp]; [| now exists Validate.publish].
    rewrite Ha, Hg, Hd, Hv, Hc, Hp in Hmode. discriminate.
  - intros [check Hset].
    destruct Ha as [Ha | Ha], Hg as [Hg | Hg], Hd as [Hd | Hd], Hv as [Hv | Hv],
             Hc as [Hc | Hc], Hp as [Hp | Hp];
      rewrite Ha, Hg, Hd, Hv, Hc, Hp; try reflexivity.
    destruct check; cbn [Validate.onlyFlag] in Hset; congruence.
Qed.

End ChecksMore.

Section CommandLogicMore.
Context {E : Type} (P : E -> Prop).

(** Asking a service whose answer is known, then going on with it. *)
Lemma runs_after_ask_ok {A B : Type} (Q : outcome B -> Prop) (e : E) (a : A)
      (k : A -> C (list E) B) :
  P e -> runs P Q (k a) -> runs P Q (cbind (ask e (Ok a)) k).
Proof.
  intros He Hk evs. unfold cbind, ask.
  destruct (Hk (evs ++ [e])) as (t & H1 & H2 & H3).
  exists (e :: t). rewrite H1, <- app_assoc. cbn. auto.
Qed.

Lemma runs_liftResult {A : Type} (r : result A) :
  runs P anyOutcome (@liftResult (list E) A r).
Proof.
  intros evs. exists []. cbn. rewrite app_nil_r. unfold anyOutcome. auto.
Qed.

Lemma runs_raised {A : Type} (msg : string) :
  runs P anyOutcome (fun evs : list E => (@Raised A msg, evs)).
Proof.
  intros evs. exists []. cbn. rewrite app_nil_r. unfold anyOutcome. auto.
Qed.

End CommandLogicMore.

Ltac safe_step_more :=
  first [ safe_step
        | match goal with
          | |- runs _ anyOutcome (fun s => (Raised _, s)) => apply runs_raised
          | |- runs _ anyOutcome (liftResult _) => apply runs_liftResult
          | |- runs _ anyOutcome (fun s => if ?b then _ else _) => destruct b
          | |- runs _ anyOutcome (fun _ => _) =>
              intros evs; exists []; cbn; rewrite app_nil_r;
              repeat split; auto; exact I
          end ].

Section ValidateRuns.
Context {host : Validate.Host} {workspace : ValidateAll.Workspace}.

(** X20.  A package that is not published is never checked against the
    registry: whatever the flags and the answers of the services, a run of
    [validatePackage] on it makes no authentication, version or pack
    call. *)
Theorem validatePackage_unpublished_skips_registry
        (pkg : PackageContext) (options : Validate.ValidateCommandOptions)
        (cfg : Validate.ReleaseConfig) :
  Validate.getPackageConfig (name pkg) = Ok cfg ->
  Validate.npm_publish cfg = false ->
  Forall (fun e => isRegistryCall e = false)
         (snd (Validate.validatePackage pkg options [])).
Proof.
  intros Hcfg Hpub.
  assert (R : runs (fun e => isRegistryCall e = false) anyOutcome
                   (Validate.validatePackage pkg options)).
  { unfold Validate.validatePackage. rewrite Hcfg.
    apply runs_after_ask_ok; [reflexivity |].
    unfold Validate.pushIf, Validate.runValidation, Validate.validateGitStatus,
      Validate.validatePackageManager, Validate.validateDependencies,
      Validate.validateVersioning, Validate.validateChangelog.
    rewrite Hpub. cbn [negb].
    repeat safe_step_more; reflexivity. }
  destruct (R []) as (tail & E & Hall & _). rewrite E. exact Hall.
Qed.

Lemma validatePackage_never_exits
      (pkg : PackageContext) (options : Validate.ValidateCommandOptions) :
  neverExits (Validate.validatePackage pkg options).
Proof.
  intros evs c.
  destruct (Validate.getPackageConfig (name pkg)) as [cfg | e] eqn:Hcfg.
  - destruct (validatePackage_done pkg options cfg evs Hcfg) as (r & E).
    rewrite E. discriminate.
  - unfold Validate.validatePackage, cbind, ask. rewrite Hcfg. cbn. discriminate.
Qed.

Lemma validateEach_reports (options : Validate.ValidateCommandOptions)
      (pkgs : list PackageContext) :
  forall acc evs,
    (forall code, fst (ValidateAll.validateEach pkgs options acc evs) <> Exited code)
    /\ forall rs,
        fst (ValidateAll.validateEach pkgs options acc evs) = Done rs ->
        exists reports,
          rs = acc ++ reports
          /\ Forall2 (fun pkg r => fst (Validate.validatePackage pkg options []) = Done r)
                     pkgs reports.
Proof.
  induction pkgs as [| pkg rest IH]; intros acc evs; cbn [ValidateAll.validateEach].
  - split; [intros code; discriminate |].
    intros rs Hrs. injection Hrs as <-. exists []. rewrite app_nil_r. now split.
  - unfold cbind, ValidateAll.inner.
    pose proof (validatePackage_never_exits pkg options [] ) as Hne.
    destruct (Validate.validatePackage pkg options []) as [[r | e | c] es] eqn:Hrun;
      cbn [fst] in *.
    + destruct (IH (acc ++ [r]) (evs ++ map ValidateAll.Inner es)) as [Hx Hd].
      split; [exact Hx |].
      intros rs Hrs. destruct (Hd rs Hrs) as (reports & -> & Hall).
      exists (r :: reports). rewrite <- app_assoc. split; [reflexivity |].
      constructor; [now rewrite Hrun | exact Hall].
    + split; [intros code; discriminate | intros rs Hrs; discriminate].
    + exfalso. now apply (Hne c).
Qed.

(** X22.  [validate] never raises: it ends normally or leaves the process
    with code 1.  It ends normally only if at least one package was found
    and the report of every package is free of errors. *)
Theorem validate_outcome
        (packages : list string) (options : Validate.ValidateCommandOptions)
        (evs : list ValidateAll.Event) :
  (fst (ValidateAll.validate packages options evs) = Done tt
   \/ fst (ValidateAll.validate packages options evs) = Exited 1)
  /\ (fst (ValidateAll.validate packages options evs) = Done tt ->
      exists pkgs,
        ValidateAll.getPackages (if isTrue (Validate.all options)
                                 then None else Some packages) = Ok pkgs
        /\ pkgs <> []
        /\ forall pkg, In pkg pkgs ->
                       exists report,
                         fst (Validate.validatePackage pkg options []) = Done report
                         /\ Validate.hasErrors report = false).
Proof.
  unfold ValidateAll.validate, ccatch, cbind, ask, cret.
  destruct (ValidateAll.getPackages _) as [pkgs | e]; cbn [fst snd].
  2: { split; [now right | discriminate]. }
  destruct pkgs as [| p ps]; cbn [fst snd].
  { split; [now right | discriminate]. }
  destruct (validateEach_reports options (p :: ps) []
              (evs ++ [ValidateAll.GetPackages
                         (if isTrue (Validate.all options) then None else Some packages)]))
    as [Hne Hdone].
  destruct (ValidateAll.validateEach (p :: ps) options [] _) as [[rs | e | c] s'];
    cbn [fst snd] in *.
  - destruct (existsb Validate.hasErrors rs) eqn:Herr; cbn [fst].
    + split; [now right | discriminate].
    + split; [now left |]. intros _. exists (p :: ps).
      split; [reflexivity |]. split; [discriminate |].
      destruct (Hdone rs eq_refl) as (reports & -> & Hall).
      cbn [app] in Herr. clear Hne Hdone.
      induction Hall as [| pkg r pkgs' reports' Hr _ IH]; [intros pkg [] |].
      cbn in Herr. apply orb_false_iff in Herr. destruct Herr as [Hr0 Hrest].
      intros pkg' [<- | Hin]; [now exists r | now apply IH].
  - split; [now right | discriminate].
  - exfalso. now apply (Hne c).
Qed.

Lemma forEach_changelogs (pre : list PackageContext) (bad : PackageContext)
      (post : list PackageContext) (evs : list Validate.Event) :
  Forall (fun p => truthy (path p) = true
                   /\ Validate.changelogValidate (name p) = Ok tt) pre ->
  truthy (path bad) = false ->
  forEach (pre ++ bad :: post)
          (fun pkg =>
             if negb (truthy (path pkg))
             then fun evs' => (Raised ("Invalid package path for " +++ name pkg), evs')
             else ask (Validate.ChangelogValidate (name pkg))
                      (Validate.changelogValidate (name pkg)))
          evs
  = (Raised ("Invalid package path for " +++ name bad),
     evs ++ map (fun p => Validate.ChangelogValidate (name p)) pre).
Proof.
  intros Hpre Hbad. revert evs.
  induction Hpre as [| p ps [Hp Hv] _ IH]; intros evs; cbn [app forEach map].
  - unfold cbind. rewrite Hbad. cbn. now rewrite app_nil_r.
  - unfold cbind at 1. rewrite Hp. cbn [negb]. unfold ask. rewrite Hv.
    rewrite IH. now rewrite <- app_assoc.
Qed.

(** X23.  [validateChangelogs] refuses a missing or empty package list, and
    stops at the first package without a path: the changelogs of the
    packages before it have been validated, those after it are not, and the
    error names the package. *)
Theorem validateChangelogs_stops_at_invalid_path
        (pre : list PackageContext) (bad : PackageContext)
        (post : list PackageContext) (evs : list Validate.Event) :
  ValidateAll.validateChangelogs None evs = (Raised "No packages found to validate", evs)
  /\ ValidateAll.validateChangelogs (Some []) evs
     = (Raised "No packages found to validate", evs)
  /\ (Forall (fun p => truthy (path p) = true
                       /\ Validate.changelogValidate (name p) = Ok tt) pre ->
      truthy (path bad) = false ->
      ValidateAll.validateChangelogs (Some (pre ++ bad :: post)) evs
      = (Raised ("Invalid package path for " +++ name bad),
         evs ++ map (fun p => Validate.ChangelogValidate (name p)) pre)).
Proof.
  repeat split. intros Hpre Hbad. unfold ValidateAll.validateChangelogs.
  rewrite <- (forEach_changelogs pre bad post evs Hpre Hbad).
  now destruct pre.
Qed.

End ValidateRuns.


Lemma validateDependencies_report_mode_sample :
  fst (@Validate.validateDependencies privateHost depsReportFlags []) = Done tt
  /\ fst (@Validate.validateDependencies publishedHost depsReportFlags []) = Done tt.
Proof.
  split.
  - exact (validateDependencies_report_mode_never_fails (host := privateHost)
             depsReportFlags [] eq_refl).
  - exact (validateDependencies_report_mode_never_fails (host := publishedHost)
             depsReportFlags [] eq_refl).
Defined.

Lemma validatePackage_unpublished_sample :
  Forall (fun e => isRegistryCall e = false)
         (snd (@Validate.validatePackage privateHost samplePackage noFlags [])).
Proof.
  exact (validatePackage_unpublished_skips_registry (host := privateHost) samplePackage
           noFlags {| Validate.npm_publish := false; Validate.packageManager := "npm" |}
           eq_refl eq_refl).
Defined.

Lemma validatePackageManager_rejects_sample :
  @Validate.validatePackageManager publishedHost
     {| Validate.npm_publish := true; Validate.packageManager := "npm" |}
     samplePackage depsReportFlags []
  = (Raised ("Version " +++ "1.0.0" +++ " already exists in registry. " +++
             "Please increment the version number before publishing."),
     [Validate.ValidateAuth; Validate.GetLatestVersion "a"]).
Proof.
  exact (validatePackageManager_rejects_published_version (host := publishedHost)
           {| Validate.npm_publish := true; Validate.packageManager := "npm" |}
           samplePackage depsReportFlags [] eq_refl eq_refl eq_refl eq_refl).
Defined.

(** [--changelog-only] enters only-mode; [--skip-auth] alone does not. *)
Lemma onlyMode_from_command_line_sample :
  Validate.onlyMode changelogOnlyFlags = true
  /\ Validate.onlyMode skipAuthFlags = false.
Proof.
  split.
  - apply (proj2 (onlyMode_from_command_line changelogOnlyFlags
                    (fun check =>
                       match check
                             return fromCommandLine
                                      (Validate.onlyFlag changelogOnlyFlags check)
                       with
                       | Validate.changelog => or_intror eq_refl
                       | _ => or_introl eq_refl
                       end))).
    exists Validate.changelog. reflexivity.
  - destruct (Validate.onlyMode skipAuthFlags) eqn:E; [| reflexivity].
    apply (proj1 (onlyMode_from_command_line skipAuthFlags
                    (fun check =>
                       match check
                             return fromCommandLine
                                      (Validate.onlyFlag skipAuthFlags check)
                       with
                       | Validate.auth => or_introl eq_refl
                       | _ => or_introl eq_refl
                       end))) in E.
    destruct E as [check Hc]. destruct check; discriminate Hc.
Defined.

Lemma validate_outcome_sample :
  fst (ValidateAll.validate ["a"] noFlags []) = Done tt
  /\ exists pkgs,
       ValidateAll.getPackages (Some ["a"]) = Ok pkgs /\ pkgs <> []
       /\ forall pkg, In pkg pkgs ->
                      exists report,
                        fst (Validate.validatePackage pkg noFlags []) = Done report
                        /\ Validate.hasErrors report = false.
Proof.
  split; [reflexivity |].
  exact (proj2 (validate_outcome (host := sampleValidateHost)
                  (workspace := sampleWorkspace) ["a"] noFlags []) eq_refl).
Defined.

Lemma validateChangelogs_sample :
  ValidateAll.validateChangelogs (Some [samplePackage; pathlessPackage; packageC]) []
  = (Raised "Invalid package path for b", [Validate.ChangelogValidate "a"]).
Proof.
  apply (proj2 (proj2 (validateChangelogs_stops_at_invalid_path
                         (host := sampleValidateHost)
                         [samplePackage] pathlessPackage [packageC] []))).
  - repeat constructor.
  - reflexivity.
Defined.

(* ================================================================== *)
(** * Further properties of the release command *)

Section ReleaseMore.
Context {host : Release.Host}.

(** X25.  The release command never lets an exception escape: whatever its
    collaborators answer, it ends normally or leaves the process.  When the
    configuration cannot be loaded it prints the cause and leaves with code
    1 without asking anything else. *)
Theorem action_never_raises
        (packages : list string) (o : Release.ReleaseCommandOptions)
        (evs : list Release.Event) :
  (forall e, fst (Release.action packages o evs) <> Raised e)
  /\ (forall e, Release.loadConfig = Throw e ->
                Release.action packages o evs
                = (Exited 1, evs ++ [Release.LoadConfig;
                                     Release.Error "Release failed:" e])).
Proof.
  split.
  - intros e. unfold Release.action, ccatch.
    match goal with
    | |- context [cbind ?m ?k evs] => destruct (cbind m k evs) as [[a | e' | c] s']
    end; cbn; discriminate.
  - intros e Hload. unfold Release.action, ccatch, cbind at 1, ask at 1.
    rewrite Hload. cbn. now rewrite <- app_assoc.
Qed.

(** X26.  When there is nothing to release (no changed package with
    [--all]; no package named and no current package otherwise) the command
    prints an error and leaves with code 1: nothing is analysed and nothing
    is released. *)
Theorem action_without_packages
        (packages : list string) (o : Release.ReleaseCommandOptions)
        (evs : list Release.Event) :
  Release.loadConfig = Ok tt ->
  (isTrue (Release.all o) = true -> Release.getChangedPackages = Ok [] ->
   Release.action packages o evs
   = (Exited 1, evs ++ [Release.LoadConfig] ++ otpEvents o
                    ++ [Release.GetChangedPackages; noPackagesError]))
  /\ (isTrue (Release.all o) = false -> packages = [] ->
      Release.getCurrentPackage = Ok None ->
      Release.action packages o evs
      = (Exited 1, evs ++ [Release.LoadConfig] ++ otpEvents o
                       ++ [Release.GetCurrentPackage; noPackagesError])).
Proof.
  intros Hload. split.
  - intros Hall Hchanged. unfold Release.action, otpEvents. rewrite Hall.
    unfold ccatch, cbind, ask, emit, cret, Release.exit. rewrite Hload, Hchanged.
    destruct (given (Release.otp o)); cbn; now rewrite <- !app_assoc.
  - intros Hall -> Hcurrent. unfold Release.action, otpEvents. rewrite Hall.
    unfold ccatch, cbind, ask, emit, cret, Release.exit. rewrite Hload, Hcurrent.
    destruct (given (Release.otp o)); cbn; now rewrite <- !app_assoc.
Qed.

(** X27.  A release that the user declines releases nothing: with
    [--show-changes], outside dry-run mode, once the confirmation is
    answered with no, the command leaves the process without having called
    [releaseAll] or [releasePackages], whatever else happens. *)
Theorem action_declined_releases_nothing
        (packages : list string) (o : Release.ReleaseCommandOptions) :
  Release.showChanges o = Some true ->
  isTrue (Release.dryRun o) = false ->
  Release.confirmRelease = Ok false ->
  hasExited (fst (Release.action packages o []))
  /\ Forall (fun e => Release.isRelease e = false) (snd (Release.action packages o [])).
Proof.
  intros Hshow Hdry Hconf.
  assert (R : runs (fun e => Release.isRelease e = false) hasExited
                   (Release.action packages o)).
  { unfold Release.action. rewrite Hshow, Hdry, Hconf. cbn [orElse].
    apply runs_ccatch_stopped.
    2: { intros e. apply runs_after_emit; [reflexivity |].
         apply runs_exit. now exists 1%Z. }
    apply runs_cbind; [apply runs_ask; reflexivity | intros _ | intros; exact I ..].
    apply runs_cbind; [repeat safe_step; reflexivity | intros _ | intros; exact I ..].
    apply runs_cbind; [repeat safe_step; reflexivity | intros pkgs | intros; exact I ..].
    apply runs_cbind; [repeat safe_step; try reflexivity | intros _ | intros; exact I ..].
    { apply runs_exit. exact I. }
    apply runs_cbind_stopped.
    apply runs_cbind; [apply runs_ask; reflexivity | intros changes | intros; exact I ..].
    apply runs_cbind; [| intros _ | intros; exact I ..].
    { apply runs_forEach. intros pkg. apply showPackage_safe. }
    apply runs_cbind; [apply runs_cret; exact I | intros _ | intros; exact I ..].
    apply runs_after_ask_ok; [reflexivity |]. cbn [negb].
    apply runs_after_emit; [reflexivity |].
    apply runs_exit. exact I. }
  destruct (R []) as (tail & E & Hall & Hex). rewrite E. now split.
Qed.

Lemma forEach_extends {A : Type} (xs : list A) (f : A -> Release.K unit)
      (st : list Release.Event) :
  (forall x st', exists t, snd (f x st') = st' ++ t) ->
  exists t, snd (forEach xs f st) = st ++ t.
Proof.
  intros Hf. revert st. induction xs as [| x xs IH]; intros st; cbn [forEach].
  - exists []. cbn. now rewrite app_nil_r.
  - unfold cbind. destruct (Hf x st) as [t1 H1].
    destruct (f x st) as [[[] | e | c] s1]; cbn [snd] in *; subst s1.
    + destruct (IH (st ++ t1)) as [t2 H2]. exists (t1 ++ t2).
      now rewrite H2, app_assoc.
    + now exists t1.
    + now exists t1.
Qed.

(** X28.  Without [--show-changes] and outside dry-run mode the command
    shows nothing and asks nothing: no analysis, no preview and no
    confirmation precede the release.  For explicitly named packages and a
    configuration that loads, [releasePackages] is called for them. *)
Theorem action_without_show_changes_does_not_ask
        (packages : list string) (o : Release.ReleaseCommandOptions) :
  orElse (Release.showChanges o) (isTrue (Release.dryRun o)) = false ->
  Forall (fun e => isPreviewOrPrompt e = false) (snd (Release.action packages o []))
  /\ (Release.loadConfig = Ok tt -> isTrue (Release.all o) = false -> packages <> [] ->
      In (Release.ReleasePackages packages (Release.releaseOptions o))
         (snd (Release.action packages o []))).
Proof.
  intros Hcond. split.
  - assert (R : runs (fun e => isPreviewOrPrompt e = false) anyOutcome
                     (Release.action packages o)).
    { unfold Release.action. rewrite Hcond.
      repeat safe_step; try reflexivity;
        try (intros evs; exists []; cbn; rewrite app_nil_r; repeat split; auto). }
    destruct (R []) as (tail & E & Hall & _). rewrite E. exact Hall.
  - intros Hload Hall Hpk. unfold Release.action. rewrite Hcond, Hall.
    destruct packages as [| p ps]; [contradiction |].
    unfold ccatch, cbind, ask, emit, cret. rewrite Hload.
    destruct (given (Release.otp o));
      destruct (Release.releasePackages (p :: ps) (Release.releaseOptions o))
        as [results | e]; cbn [fst snd app];
      try (cbn; tauto);
      match goal with
      | |- context [forEach ?r ?f ?st] =>
          let t := fresh "t" in
          let Ht := fresh "Ht" in
          destruct (forEach_extends r f st) as [t Ht];
            [ intros [report | res] st'; eexists; reflexivity
            | destruct (forEach r f st) as [[[] | e | c] s'];
              cbn [fst snd] in *; subst s'; unfold Release.exit; cbn [snd];
              rewrite ?in_app_iff; cbn [In]; intuition auto ]
      end.
Qed.

End ReleaseMore.

Lemma action_never_raises_sample :
  @Release.action (decliningHost false) ["a"] plainOptions []
  = (Exited 1, [Release.LoadConfig;
                Release.Error "Release failed:" "Configuration not found"]).
Proof.
  exact (proj2 (action_never_raises (host := decliningHost false) ["a"] plainOptions [])
           "Configuration not found" eq_refl).
Defined.

Lemma action_without_packages_sample :
  @Release.action (decliningHost true) [] plainOptions []
  = (Exited 1, [Release.LoadConfig; Release.GetCurrentPackage; noPackagesError]).
Proof.
  exact (proj2 (action_without_packages (host := decliningHost true) [] plainOptions []
                  eq_refl)
           eq_refl eq_refl eq_refl).
Defined.

Lemma action_declined_sample :
  hasExited (fst (@Release.action (decliningHost true) ["a"] showChangesOptions []))
  /\ Forall (fun e => Release.isRelease e = false)
            (snd (@Release.action (decliningHost true) ["a"] showChangesOptions [])).
Proof.
  exact (action_declined_releases_nothing (host := decliningHost true) ["a"]
           showChangesOptions eq_refl eq_refl eq_refl).
Defined.

Lemma action_without_show_changes_sample :
  Forall (fun e => isPreviewOrPrompt e = false)
         (snd (@Release.action sampleReleaseHost ["a"] plainOptions []))
  /\ In (Release.ReleasePackages ["a"] (Release.releaseOptions plainOptions))
        (snd (@Release.action sampleReleaseHost ["a"] plainOptions [])).
Proof.
  destruct (action_without_show_changes_does_not_ask (host := sampleReleaseHost)
              ["a"] plainOptions eq_refl) as [Hquiet Hrel].
  split; [exact Hquiet |]. apply Hrel; [reflexivity | reflexivity | discriminate].
Defined.
